(** * Converge: dependency resolution, node values, the user and param
      resources and the status wire schema

    A shallow embedding of
      - package load  (ResolveDependencies and its generators),
      - package node  (New and WithValue, as their tests use them),
      - package user  (User.Check, User.Apply, SetUserAddOptions),
      - package param (Preparer.Prepare),
      - package pb    (the protobuf declaration of the status stream),
    one Module per Go package, followed by the properties proved of them. *)

From Stdlib Require Import Ascii ZArith Lia.
From Stdlib Require OrderedTypeEx.
From stdpp Require Import base strings list gmap sets sorting.
From Equations Require Import Equations.

#[local] Set Warnings "-register-all".

(* ===================================================================== *)
(** * Part I: the program                                                 *)
(* ===================================================================== *)

(** Go's [error] values.  [fmt.Errorf] and [errors.New] build an error
    from its message; the sentinels and the typed errors of os/user are
    compared by identity or by type in the code, so each has its own
    constructor. *)
Inductive error :=
| Errorf (msg : string)
| ErrNotFound                         (* parse.ErrNotFound *)
| ErrUnsupported                      (* user.ErrUnsupported *)
| UnknownUserError (name : string)    (* os/user *)
| UnknownUserIdError (uid : string)   (* os/user *)
| UnknownGroupIdError (gid : string)  (* os/user *).

(** strings.Contains *)
Fixpoint Contains (s substr : string) : bool :=
  String.prefix substr s
  || match s with
     | EmptyString => false
     | String _ r => Contains r substr
     end.

(** sort.Strings: ascending byte-wise order.  The order on strings is
    total and the members sorted here are distinct, so the result does
    not depend on the algorithm; insertion into a sorted list is used. *)
Fixpoint insertString (s : string) (l : list string) : list string :=
  match l with
  | [] => [s]
  | x :: r => if String.leb s x then s :: l else x :: insertString s r
  end.

Definition sort_Strings (l : list string) : list string :=
  foldr insertString [] l.

(* --------------------------------------------------------------------- *)
(** ** package parse (declared outside the files at hand)                 *)
(* --------------------------------------------------------------------- *)
Module parse.

(** The resolver reads a parse node through three accessors only; a
    node is represented by what each of them returns, a Go pair of a
    value and an error. *)
Record Node := {
  GetStringSlice_depends : list string * option error;  (* GetStringSlice("depends") *)
  GetStrings : list string * option error;              (* GetStrings() *)
  GetString_group : string * option error               (* GetString("group") *)
}.

End parse.

(** The [interface{}] payload of a vertex. *)
Inductive Value :=
| VInt (n : Z)                   (* plain data without methods: 1, 2 in the tests *)
| VParse (p : parse.Node)        (* *parse.Node *)
| VGroupable (group : string)    (* a value with a Group() string method: &aGroupable{group} *)
| VTask (name : string)          (* any other payload, such as a prepared task *).

(** The type assertion [v.(Groupable)]. *)
Definition asGroupable (v : Value) : option string :=
  match v with
  | VGroupable g => Some g
  | _ => None
  end.

(** The type assertion [v.( *parse.Node)]. *)
Definition asParseNode (v : Value) : option parse.Node :=
  match v with
  | VParse p => Some p
  | _ => None
  end.

(** The text the verb %T prints for a payload. *)
Definition typeName (v : Value) : string :=
  match v with
  | VInt _ => "int"
  | VParse _ => "*parse.Node"
  | VGroupable _ => "*node_test.aGroupable"
  | VTask name => name
  end.

(* --------------------------------------------------------------------- *)
(** ** package node                                                       *)
(* --------------------------------------------------------------------- *)
Module node.

Record Node := { ID : string; Group : string; value : Value }.

(** The method [Value()]. *)
Definition Value_of (n : Node) : Value := value n.

(** Modelled from the spec: node.go itself is not among the sources
    (only its tests are).  "Group is an optional string; it is set
    automatically from Value when the value exposes a Group() string
    capability and that string is non-empty." *)
Definition groupFrom (v : Value) : string :=
  match asGroupable v with
  | Some g => if String.eqb g "" then "" else g
  | None => ""
  end.

(** Modelled from the spec: [node.New(id, value)]. *)
Definition New (id : string) (v : Value) : Node :=
  {| ID := id; Group := groupFrom v; value := v |}.

(** Modelled from the spec: [n.WithValue(value)], "a fresh node" that
    keeps the ID, carries the new value and has its group set from it. *)
Definition WithValue (n : Node) (v : Value) : Node :=
  {| ID := ID n; Group := groupFrom v; value := v |}.

(** Nodes are handled through pointers ( *node.Node ).  The store maps
    an address to the node it holds; an address is an index into the
    store and allocation extends it. *)
Abbreviation Store := (list Node).
Abbreviation ptr := nat.

Definition alloc (n : Node) (h : Store) : ptr * Store := (length h, h ++ [n]).

(** [p := node.New(id, v)] *)
Definition NewPtr (id : string) (v : Value) (h : Store) : ptr * Store :=
  alloc (New id v) h.

(** [q := p.WithValue(v)]; [None] is the nil dereference. *)
Definition WithValuePtr (p : ptr) (v : Value) (h : Store) : option (ptr * Store) :=
  match h !! p with
  | Some n => Some (alloc (WithValue n v) h)
  | None => None
  end.

(** An assignment to one of the exported fields of a node. *)
Inductive Assignment :=
| SetID (id : string)         (* p.ID = id *)
| SetGroup (group : string)   (* p.Group = group *).

Definition assignField (a : Assignment) (n : Node) : Node :=
  match a with
  | SetID id => {| ID := id; Group := Group n; value := value n |}
  | SetGroup g => {| ID := ID n; Group := g; value := value n |}
  end.

Definition assign (p : ptr) (a : Assignment) (h : Store) : option Store :=
  match h !! p with
  | Some n => Some (<[p := assignField a n]> h)
  | None => None
  end.

(** Reading through a pointer. *)
Definition deref (p : ptr) (h : Store) : option Node := h !! p.

End node.

(* --------------------------------------------------------------------- *)
(** ** package graph (declared outside the files at hand)                 *)
(* --------------------------------------------------------------------- *)
Module graph.

(** The text before the last slash of [s], if [s] has a slash. *)
Fixpoint beforeLastSlash (s : string) : option string :=
  match s with
  | EmptyString => None
  | String c r =>
      match beforeLastSlash r with
      | Some p => Some (String c p)
      | None => if Ascii.eqb c "/"%char then Some EmptyString else None
      end
  end.

(** Modelled from the spec: "Every vertex has a hierarchical string ID
    composed of slash-separated segments."  The parent drops the last
    segment; an ID of one segment has the parent ".", the value the
    callers in package load test for. *)
Definition ParentID (id : string) : string :=
  default "." (beforeLastSlash id).

(** Modelled from the spec: "SiblingID(id, name) (replace last segment)". *)
Definition SiblingID (id name : string) : string :=
  match beforeLastSlash id with
  | Some p => p +:+ "/" +:+ name
  | None => name
  end.

(** Modelled from the spec: "AreSiblingIDs(a,b) (same parent)". *)
Definition AreSiblingIDs (a b : string) : bool :=
  String.eqb (ParentID a) (ParentID b).

(** Modelled from the spec: "The empty/root ID denotes the synthetic
    root": the root is the vertex whose ID is the one segment [root];
    the callers test for the empty ID themselves. *)
Definition IsRoot (id : string) : bool := String.eqb id "root".

(** Modelled from the spec: "vertex set keyed by ID, edge set of
    directed (from,to) pairs representing from depends on to". *)
Record Graph := {
  vertices : gmap string node.Node;
  edges : gset (string * string)
}.

(** Modelled from the spec: "Get(id) → (Node, bool)". *)
Definition Get (g : Graph) (id : string) : option node.Node := vertices g !! id.

(** Modelled from the spec: "Add(node)"; the vertex is keyed by the ID
    of the node. *)
Definition Add (g : Graph) (n : node.Node) : Graph :=
  {| vertices := <[node.ID n := n]> (vertices g); edges := edges g |}.

(** Modelled from the spec: "Connect(from,to)"; "edge additions must be
    idempotent; duplicates are silently coalesced", the edges form a set. *)
Definition Connect (g : Graph) (from to : string) : Graph :=
  {| vertices := vertices g; edges := {[ (from, to) ]} ∪ edges g |}.

(** A directed path: a chain of edges, possibly empty. *)
Definition path (g : Graph) : relation string :=
  rtc (fun a b => (a, b) ∈ edges g).

(** Modelled from the spec: when two callbacks of one Transform fail,
    the error of the "lowest-ID vertex whose function failed" is the
    one reported. *)
Definition lowest (first : option (string * error)) (id : string) (e : error)
  : option (string * error) :=
  match first with
  | Some (id0, e0) => if String.ltb id id0 then Some (id, e) else Some (id0, e0)
  | None => Some (id, e)
  end.

Section Transform.
Context {St : Type}.
Variable cb : node.Node -> Graph * St -> (Graph * St) * option error.

(** One vertex of a Transform: the callback runs on the state reached
    so far and its error, if any, is kept against the one already met. *)
Definition visit (acc : (Graph * St) * option (string * error)) (meta : node.Node)
  : (Graph * St) * option (string * error) :=
  let '(st', err) := cb meta (fst acc) in
  (st', match err with
        | Some e => lowest (snd acc) (node.ID meta) e
        | None => snd acc
        end).

(** Modelled from the spec: "Transform(ctx, fn) (concurrent map over
    vertices producing a new graph)", which must "propagate the first
    error deterministically (lowest-ID vertex whose function failed)".
    The callback runs once per vertex on a copy [out] of the source;
    [order] is the order in which the workers' effects land, and [St]
    is the state the callback captures besides [out]. *)
Definition Transform (order : list string) (g : Graph) (st : St)
  : (Graph * St) * option error :=
  let '(res, first) := foldl visit ((g, st), None) (omap (Get g) order) in
  (res, snd <$> first).
End Transform.

End graph.

(* --------------------------------------------------------------------- *)
(** ** package load                                                       *)
(* --------------------------------------------------------------------- *)
Module load.
Import graph.

(** How far [id] is from the top of the hierarchy; the ancestor walks
    below descend along it. *)
Definition climb (id : string) : nat :=
  if String.eqb id "." then 0 else S (String.length id).

(** The parent of an ID other than "." is nearer to the top: it is
    either "." or shorter. *)
Ltac climbs_down id Hdot :=
  let Hlen := fresh "Hlen" in
  assert (Hlen : forall s p, beforeLastSlash s = Some p -> String.length p < String.length s)
    by (intros s; induction s as [|c r IH]; intros p; simpl; [discriminate|];
        destruct (beforeLastSlash r) as [q|];
        [ intros [= <-]; simpl; specialize (IH q eq_refl); lia
        | destruct (Ascii.eqb c "/"); [|discriminate]; intros [= <-]; simpl; lia ]);
  unfold climb at 2; rewrite Hdot; unfold ParentID, climb;
  let E := fresh "E" in
  destruct (beforeLastSlash id) as [p|] eqn:E; simpl;
  [ apply Hlen in E; destruct (String.eqb p "."); lia | lia ].

Equations? getNearestAncestor (g : Graph) (id name : string) : option string
  by wf (climb id) lt :=
getNearestAncestor g id name with sumbool_of_bool (IsRoot id || String.eqb id "" || String.eqb id ".") := {
  | left _ => None
  | right Hgo =>
      let siblingID := SiblingID id name in
      match Get g siblingID with
      | None => getNearestAncestor g (ParentID id) name
      | Some valMeta =>
          match asParseNode (node.Value_of valMeta) with
          | None => None
          | Some _ => Some siblingID
          end
      end }.
Proof.
  apply orb_false_elim in Hgo as [_ Hdot]. by climbs_down id Hdot.
Qed.

Equations? getPeerVertex (src dst : string) : option string
  by wf (climb dst) lt :=
getPeerVertex src dst with sumbool_of_bool (String.eqb dst "." || IsRoot dst) := {
  | left _ => None
  | right Hgo =>
      if AreSiblingIDs src dst then Some dst
      else getPeerVertex src (ParentID dst) }.
Proof.
  apply orb_false_elim in Hgo as [Hdot _]. by climbs_down dst Hdot.
Qed.

(** The condition under which getNearestAncestor gives up at [id]. *)
Definition atTop (id : string) : bool :=
  IsRoot id || String.eqb id "" || String.eqb id ".".

(** The scope that the walk of getNearestAncestor looks at after [k]
    steps up from [id]. *)
Fixpoint scope (k : nat) (id : string) : string :=
  match k with
  | 0 => id
  | S k' => scope k' (ParentID id)
  end.

Definition groupName (node : parse.Node) : string * option error :=
  let '(group, err) := parse.GetString_group node in
  match err with
  | Some ErrNotFound => ("", None)
  | None => (group, None)
  | Some e => ("", Some e)
  end.

(** The loop of getDepends: entries are replaced in place by the
    vertex they resolve to, up to the first that resolves to none. *)
Fixpoint resolveDepends (g : Graph) (id : string) (deps : list string)
  : list string * option error :=
  match deps with
  | [] => ([], None)
  | dep :: rest =>
      match getNearestAncestor g id dep with
      | Some ancestor =>
          let '(rest', err) := resolveDepends g id rest in (ancestor :: rest', err)
      | None => (dep :: rest, Some (Errorf ("nonexistent vertices in edges: " +:+ dep)))
      end
  end.

Definition getDepends (g : Graph) (id : string) (node : parse.Node)
  : list string * option error :=
  let '(deps, err) := parse.GetStringSlice_depends node in
  match err with
  | Some ErrNotFound => ([], None)
  | None =>
      match resolveDepends g id deps with
      | (_, Some e) => ([], Some e)
      | (deps', None) => (deps', None)
      end
  | Some e => ([], Some e)
  end.

(** What [template.New("DependencyTemplate").Funcs(...).Parse(s)]
    followed by [tmpl.Execute] leaves behind for one string: a parse
    error, or the first arguments of the calls that the functions
    installed with RememberCalls recorded, in order. *)
Inductive parsed :=
| ParseError (tmplErr : error)
| Recorded (calls : list string).

(** The loop over nodeStrings, shared in shape by getParams and
    getXrefs: it stops at the first template that does not parse. *)
Fixpoint recordCalls (run : string -> parsed) (nodeStrings : list string)
    (out : list string) : list string * option error :=
  match nodeStrings with
  | [] => (out, None)
  | s :: rest =>
      match run s with
      | ParseError tmplErr => (out, Some tmplErr)
      | Recorded calls => recordCalls run rest (out ++ calls)
      end
  end.

(** The second loop of getParams. *)
Fixpoint resolveParams (g : Graph) (id : string) (out : list string)
  : list string * option error :=
  match out with
  | [] => ([], None)
  | val :: rest =>
      match getNearestAncestor g id ("param." +:+ val) with
      | None => (val :: rest, Some (Errorf ("unknown parameter: param." +:+ val)))
      | Some ancestor =>
          let '(rest', err) := resolveParams g id rest in (ancestor :: rest', err)
      end
  end.

Section Generators.
(** The template engine and the extensions and preprocessor packages
    are outside the files at hand; the resolver is read relative to
    them.  [paramCalls s] is what parsing and executing [s] records
    under the language of getParams (param, paramList and paramMap
    remember their argument), [refCalls s] under the language of
    getXrefs (the reference function remembers its argument), and
    [VertexSplitTraverse g call id] is the vertex found by
    preprocessor.VertexSplitTraverse with TraverseUntilModule and a
    fresh visited set, if any. *)
Variable paramCalls : string -> parsed.
Variable refCalls : string -> parsed.
Variable VertexSplitTraverse : Graph -> string -> string -> option string.

Definition getParams (g : Graph) (id : string) (node : parse.Node)
  : list string * option error :=
  let '(nodeStrings, err) := parse.GetStrings node in
  match err with
  | Some e => ([], Some e)
  | None =>
      match recordCalls paramCalls nodeStrings [] with
      | (out, Some tmplErr) => (out, Some tmplErr)
      | (out, None) => resolveParams g id out
      end
  end.

(** The second loop of getXrefs. *)
Fixpoint resolveXrefs (g : Graph) (id : string) (calls : list string)
    (nodeRefs : gset string) (out : list string) : list string * option error :=
  match calls with
  | [] => (out, None)
  | call :: rest =>
      match VertexSplitTraverse g call id with
      | None =>
          ([], Some (Errorf ("dependency generator: unresolvable call to " +:+ call)))
      | Some vertex =>
          if decide (vertex ∈ nodeRefs) then resolveXrefs g id rest nodeRefs out
          else
            let out1 := out ++ [vertex] in
            let out2 := match getPeerVertex id vertex with
                        | Some peerVertex => out1 ++ [peerVertex]
                        | None => out1
                        end in
            resolveXrefs g id rest ({[vertex]} ∪ nodeRefs) out2
      end
  end.

Definition getXrefs (g : Graph) (id : string) (node : parse.Node)
  : list string * option error :=
  let '(nodeStrings, err) := parse.GetStrings node in
  match err with
  | Some e => ([], Some e)
  | None =>
      match recordCalls refCalls nodeStrings [] with
      | (_, Some tmplErr) => ([], Some tmplErr)
      | (calls, None) => resolveXrefs g id calls ∅ []
      end
  end.

Definition dependencyGenerator : Type :=
  Graph -> string -> parse.Node -> list string * option error.

Definition depGenerators : list dependencyGenerator :=
  [getDepends; getParams; getXrefs].

(** [for _, dep := range deps { out.Connect(meta.ID, dep) }] *)
Definition connectDeps (out : Graph) (id : string) (deps : list string) : Graph :=
  foldl (fun o dep => Connect o id dep) out deps.

(** [for _, source := range depGenerators { ... }] *)
Fixpoint runGenerators (gens : list dependencyGenerator) (g : Graph) (id : string)
    (node : parse.Node) (out : Graph) : Graph * option error :=
  match gens with
  | [] => (out, None)
  | source :: rest =>
      match source g id node with
      | (_, Some err) => (out, Some err)
      | (deps, None) => runGenerators rest g id node (connectDeps out id deps)
      end
  end.

(** The callback handed to Transform.  It reads the source graph [g],
    writes edges to [out] and appends to the captured [groupMap]. *)
Definition resolveVertex (g : Graph) (meta : node.Node)
    (st : Graph * gmap string (list string))
  : (Graph * gmap string (list string)) * option error :=
  let '(out, groupMap) := st in
  if IsRoot (node.ID meta) then (st, None)
  else
    match asParseNode (node.Value_of meta) with
    | None =>
        (st, Some (Errorf ("ResolveDependencies can only be used on Graphs of *parse.Node. I got "
                           +:+ typeName (node.Value_of meta))))
    | Some node =>
        match runGenerators depGenerators g (node.ID meta) node out with
        | (out', Some err) => ((out', groupMap), Some err)
        | (out', None) =>
            match groupName node with
            | (_, Some _) =>
                ((out', groupMap),
                 Some (Errorf ("failed to retrieve group from node " +:+ node.ID meta)))
            | (group, None) =>
                if String.eqb group "" then ((out', groupMap), None)
                else
                  ((out', <[group := default [] (groupMap !! group) ++ [node.ID meta]]> groupMap),
                   None)
            end
        end
    end.

(** A vertex on which the callback succeeds, with its edges in
    [out]: it holds a parse node, its three generators return
    without error and every dependency they return is connected. *)
Definition resolved (g : Graph) (meta : node.Node) (out : Graph) : Prop :=
  exists node d1 d2 d3,
    asParseNode (node.Value_of meta) = Some node
    /\ getDepends g (node.ID meta) node = (d1, None)
    /\ getParams g (node.ID meta) node = (d2, None)
    /\ getXrefs g (node.ID meta) node = (d3, None)
    /\ forall d, d ∈ d1 ++ d2 ++ d3 -> (node.ID meta, d) ∈ edges out.

(** The group that a vertex reports to the callback, if any. *)
Definition reportedGroup (meta : node.Node) : option string :=
  if IsRoot (node.ID meta) then None
  else
    match asParseNode (node.Value_of meta) with
    | Some node =>
        match groupName node with
        | (group, None) => if String.eqb group "" then None else Some group
        | (_, Some _) => None
        end
    | None => None
    end.

(** The entry that a callback that succeeds makes in groupMap. *)
Definition recordGroup (groupMap : gmap string (list string)) (meta : node.Node)
  : gmap string (list string) :=
  match reportedGroup meta with
  | Some group => <[group := default [] (groupMap !! group) ++ [node.ID meta]]> groupMap
  | None => groupMap
  end.

Definition groupDep (id : string) : string :=
  let pid := ParentID id in
  if negb (IsRoot pid) then pid else id.

(** The edge connected for the adjacent pair [to], [from] of a group. *)
Definition groupEdge (from to : string) : string * string :=
  if negb (AreSiblingIDs from to) then (groupDep from, groupDep to) else (from, to).

(** [for i, id := range ids { if i > 0 { ... g.Connect(from, to) } }] *)
Fixpoint connectGroup (ids : list string) (g : Graph) : Graph :=
  match ids with
  | prev :: rest =>
      match rest with
      | cur :: _ =>
          let '(from, to) := groupEdge cur prev in
          connectGroup rest (Connect g from to)
      | [] => g
      end
  | [] => g
  end.

(** [for _, ids := range groupMap { sort.Strings(ids); ... }] *)
Definition connectGroups (groupMap : gmap string (list string)) (g : Graph) : Graph :=
  foldr (fun entry acc => connectGroup (sort_Strings (snd entry)) acc) g
        (map_to_list groupMap).

Definition ResolveDependencies (order : list string) (g : Graph)
  : Graph * option error :=
  let '((g', groupMap), err) := Transform (resolveVertex g) order g ∅ in
  (connectGroups groupMap g', err).

End Generators.

End load.

(* --------------------------------------------------------------------- *)
(** ** package resource (declared outside the files at hand)              *)
(* --------------------------------------------------------------------- *)
Module resource.

(** Modelled from the spec: "WarningLevel ∈ {NoChange, WillChange,
    WouldInvalidate, Fatal}"; the first is the zero value, the level of
    a fresh [&resource.Status{}]. *)
Inductive StatusLevel :=
| StatusNoChange
| StatusWillChange
| StatusWouldInvalidate
| StatusFatal.

(** Modelled from the spec: "A Diff is {Original, Current, Changes
    bool}"; a text difference changes when its two sides differ. *)
Record Diff := { Original : string; Current : string }.

Definition Changes (d : Diff) : bool :=
  negb (String.eqb (Original d) (Current d)).

(** Modelled from the spec and from the fields that user.go assigns:
    the level, the messages, the change flag and the differences by key. *)
Record Status := {
  WarningLevel : StatusLevel;
  Output : list string;
  WillChange : bool;
  Differences : gmap string Diff
}.

(** [&resource.Status{}] *)
Definition zero : Status :=
  {| WarningLevel := StatusNoChange; Output := []; WillChange := false; Differences := ∅ |}.

(** [status.WarningLevel = l] *)
Definition setWarningLevel (l : StatusLevel) (s : Status) : Status :=
  {| WarningLevel := l; Output := Output s; WillChange := WillChange s;
     Differences := Differences s |}.

(** [status.Output = append(status.Output, msg)] *)
Definition appendOutput (msg : string) (s : Status) : Status :=
  {| WarningLevel := WarningLevel s; Output := Output s ++ [msg];
     WillChange := WillChange s; Differences := Differences s |}.

(** [status.WillChange = b] *)
Definition setWillChange (b : bool) (s : Status) : Status :=
  {| WarningLevel := WarningLevel s; Output := Output s; WillChange := b;
     Differences := Differences s |}.

(** Modelled from the spec: [status.AddDifference(name, original,
    current, default)] records the difference under [name] in what
    Diffs() returns, "map<string, Diff>".  Every call in user.go passes
    the empty default. *)
Definition AddDifference (name original current default : string) (s : Status) : Status :=
  {| WarningLevel := WarningLevel s; Output := Output s; WillChange := WillChange s;
     Differences := <[name := {| Original := original; Current := current |}]> (Differences s) |}.

(** [Diffs()] *)
Definition Diffs (s : Status) : gmap string Diff := Differences s.

End resource.

(* --------------------------------------------------------------------- *)
(** ** os/user                                                            *)
(* --------------------------------------------------------------------- *)
Module osuser.

Record User := {
  Uid : string; Gid : string; Username : string; Name : string; HomeDir : string
}.

Record Group := { GroupGid : string; GroupName : string }.

Definition User_eqb (a b : User) : bool :=
  String.eqb (Uid a) (Uid b) && String.eqb (Gid a) (Gid b)
  && String.eqb (Username a) (Username b) && String.eqb (Name a) (Name b)
  && String.eqb (HomeDir a) (HomeDir b).

End osuser.

(* --------------------------------------------------------------------- *)
(** ** package user: user.go                                              *)
(* --------------------------------------------------------------------- *)
Module user.
Import resource.

Definition StatePresent : string := "present".
Definition StateAbsent : string := "absent".

(** A call made on the SystemUtils of a task. *)
Inductive Call :=
| CallAddUser (name : string) (options : gmap string string)
| CallDelUser (name : string)
| CallLookup (name : string)
| CallLookupID (uid : string)
| CallLookupGroupID (gid : string).

(** The outcome of running Go code that may dereference nil. *)
Inductive outcome (A : Type) :=
| Returned (a : A)
| Panicked.
Arguments Returned {A} a.
Arguments Panicked {A}.

Section System.
(** The state of the target system behind the SystemUtils interface. *)
Variable Sys : Type.

Record SystemUtils := {
  AddUser : string -> gmap string string -> Sys -> option error * Sys;
  DelUser : string -> Sys -> option error * Sys;
  Lookup : string -> Sys -> (option osuser.User * option error) * Sys;
  LookupID : string -> Sys -> (option osuser.User * option error) * Sys;
  LookupGroupID : string -> Sys -> (option osuser.Group * option error) * Sys
}.

Record User := {
  UID : string;
  GID : string;
  Username : string;
  Name : string;
  HomeDir : string;
  State : string;
  system : SystemUtils
}.

(** Code of the package runs against the system and the log of the
    calls made so far. *)
Definition M (A : Type) : Type := Sys * list Call -> outcome A * (Sys * list Call).

Definition ret {A} (a : A) : M A := fun w => (Returned a, w).

Definition panic {A} : M A := fun w => (Panicked, w).

Definition bind {A B} (m : M A) (k : A -> M B) : M B :=
  fun w =>
    match m w with
    | (Returned a, w') => k a w'
    | (Panicked, w') => (Panicked, w')
    end.

(** One call on the system: it is logged and its effect applied. *)
Definition invoke {A} (c : Call) (f : Sys -> A * Sys) : M A :=
  fun w => let '(a, s') := f (fst w) in (Returned a, (s', snd w ++ [c])).

Notation "'do' x <- m ; k" := (bind m (fun x => k))
  (at level 10, x pattern, m at level 100, k at level 200).

(** [_, ok := err.(user.UnknownUserError)] *)
Definition isUnknownUserError (err : option error) : bool :=
  match err with Some (UnknownUserError _) => true | _ => false end.

(** [_, ok := err.(user.UnknownUserIdError)] *)
Definition isUnknownUserIdError (err : option error) : bool :=
  match err with Some (UnknownUserIdError _) => true | _ => false end.

(** [err == ErrUnsupported] *)
Definition isErrUnsupported (err : option error) : bool :=
  match err with Some ErrUnsupported => true | _ => false end.

Definition notNil {A} (p : option A) : bool :=
  match p with Some _ => true | None => false end.

Definition nonEmpty (s : string) : bool := negb (String.eqb s "").

(** [userByName != nil && userByID != nil &&
     userByName.Name != userByID.Name || userByName.Uid != userByID.Uid]:
    && binds tighter than ||, so the Uid fields are read whenever the
    conjunction is false, also through a nil pointer. *)
Definition differentUsers (userByName userByID : option osuser.User) : M bool :=
  match userByName, userByID with
  | Some a, Some b =>
      if negb (String.eqb (osuser.Name a) (osuser.Name b)) then ret true
      else ret (negb (String.eqb (osuser.Uid a) (osuser.Uid b)))
  | _, _ => panic
  end.

(** [userByName != nil && userByID != nil && *userByName == *userByID] *)
Definition sameUser (userByName userByID : option osuser.User) : bool :=
  match userByName, userByID with
  | Some a, Some b => osuser.User_eqb a b
  | _, _ => false
  end.

(** The lookups at the head of Check and of Apply. *)
Definition lookups (u : User)
  : M ((option osuser.User * option error) * (option osuser.User * option error)) :=
  do byName <- invoke (CallLookup (Username u)) (Lookup (system u) (Username u)) ;
  do byID <- (if nonEmpty (UID u)
           then invoke (CallLookupID (UID u)) (LookupID (system u) (UID u))
           else ret (None, None)) ;
  ret (byName, byID).

(** [if u.GID != "" { _, err := u.system.LookupGroupID(u.GID); if err != nil
    { ...; return status, fmt.Errorf(refusal) } }], followed by [rest]. *)
Definition withGroupChecked (u : User) (status : Status) (refusal : string)
    (rest : M (Status * option error)) : M (Status * option error) :=
  if nonEmpty (GID u) then
    do (_, err) <- invoke (CallLookupGroupID (GID u)) (LookupGroupID (system u) (GID u)) ;
    match err with
    | Some _ =>
        ret (appendOutput ("group gid " +:+ GID u +:+ " does not exist")
               (setWarningLevel StatusFatal status),
             Some (Errorf refusal))
    | None => rest
    end
  else rest.

Definition Check (u : User) : M (Status * option error) :=
  do ((userByName, nameErr), (userByID, uidErr)) <- lookups u ;
  let status := zero in
  if isErrUnsupported nameErr then
    ret (setWarningLevel StatusFatal status, Some ErrUnsupported)
  else if String.eqb (State u) StatePresent then
    if String.eqb (UID u) "" then
      let nameNotFound := isUnknownUserError nameErr in
      if notNil userByName then
        ret (appendOutput ("user " +:+ Username u +:+ " already exists")
               (setWarningLevel StatusFatal status), None)
      else if nameNotFound then
        withGroupChecked u status ("will not add user " +:+ Username u)
          (ret (setWillChange true
                  (AddDifference "user" StateAbsent ("user " +:+ Username u) ""
                     (appendOutput "user does not exist"
                        (setWarningLevel StatusWillChange status))), None))
      else ret (status, None)
    else
      let nameNotFound := isUnknownUserError nameErr in
      let uidNotFound := isUnknownUserIdError uidErr in
      if nameNotFound && uidNotFound then
        withGroupChecked u status
          ("will not add user " +:+ Username u +:+ " with uid " +:+ UID u)
          (ret (setWillChange true
                  (AddDifference "user" StateAbsent
                     ("user " +:+ Username u +:+ " with uid " +:+ UID u) ""
                     (appendOutput "user name and uid do not exist"
                        (setWarningLevel StatusWillChange status))), None))
      else if nameNotFound then
        ret (appendOutput ("user uid " +:+ UID u +:+ " already exists")
               (setWarningLevel StatusFatal status), None)
      else if uidNotFound then
        ret (appendOutput ("user " +:+ Username u +:+ " already exists")
               (setWarningLevel StatusFatal status), None)
      else
        do different <- differentUsers userByName userByID ;
        if different then
          ret (appendOutput ("user " +:+ Username u +:+ " and uid " +:+ UID u
                             +:+ " belong to different users")
                 (setWarningLevel StatusFatal status), None)
        else if sameUser userByName userByID then
          ret (setWarningLevel StatusNoChange status, None)
        else ret (status, None)
  else if String.eqb (State u) StateAbsent then
    if String.eqb (UID u) "" then
      let nameNotFound := isUnknownUserError nameErr in
      if nameNotFound then
        ret (appendOutput ("user " +:+ Username u +:+ " does not exist")
               (setWarningLevel StatusFatal status), None)
      else if notNil userByName then
        ret (AddDifference "user" ("user " +:+ Username u) StateAbsent ""
               (setWillChange true (setWarningLevel StatusWillChange status)), None)
      else ret (status, None)
    else
      let nameNotFound := isUnknownUserError nameErr in
      let uidNotFound := isUnknownUserIdError uidErr in
      if nameNotFound && uidNotFound then
        ret (appendOutput "user name and uid do not exist"
               (setWarningLevel StatusNoChange status), None)
      else if nameNotFound then
        ret (appendOutput ("user " +:+ Username u +:+ " does not exist")
               (setWarningLevel StatusFatal status), None)
      else if uidNotFound then
        ret (appendOutput ("user uid " +:+ UID u +:+ " does not exist")
               (setWarningLevel StatusFatal status), None)
      else
        do different <- differentUsers userByName userByID ;
        if different then
          ret (appendOutput ("user " +:+ Username u +:+ " and uid " +:+ UID u
                             +:+ " belong to different users")
                 (setWarningLevel StatusFatal status), None)
        else if sameUser userByName userByID then
          ret (AddDifference "user"
                 ("user " +:+ Username u +:+ " with uid " +:+ UID u) StateAbsent ""
                 (setWillChange true (setWarningLevel StatusWillChange status)), None)
        else ret (status, None)
  else
    ret (setWarningLevel StatusFatal status,
         Some (Errorf ("user: unrecognized state " +:+ State u))).

(** SetUserAddOptions *)
Definition SetUserAddOptions (u : User) : gmap string string :=
  let o0 : gmap string string := ∅ in
  let o1 := if nonEmpty (UID u) then <["uid" := UID u]> o0 else o0 in
  let o2 := if nonEmpty (GID u) then <["gid" := GID u]> o1 else o1 in
  let o3 := if nonEmpty (Name u) then <["comment" := Name u]> o2 else o2 in
  if nonEmpty (HomeDir u) then <["directory" := HomeDir u]> o3 else o3.

(** [err := u.system.AddUser(u.Username, userAddOptions)] and what
    follows it, with the two messages of the branch at hand. *)
Definition addUser (u : User) (status : Status) (failure success : string)
  : M (Status * option error) :=
  let userAddOptions := SetUserAddOptions u in
  do err <- invoke (CallAddUser (Username u) userAddOptions)
                (AddUser (system u) (Username u) userAddOptions) ;
  match err with
  | Some e => ret (appendOutput failure (setWarningLevel StatusFatal status), Some e)
  | None => ret (appendOutput success status, None)
  end.

(** [err := u.system.DelUser(u.Username)] and what follows it. *)
Definition delUser (u : User) (status : Status) (failure success : string)
  : M (Status * option error) :=
  do err <- invoke (CallDelUser (Username u)) (DelUser (system u) (Username u)) ;
  match err with
  | Some e => ret (appendOutput failure (setWarningLevel StatusFatal status), Some e)
  | None => ret (appendOutput success status, None)
  end.

Definition Apply (u : User) : M (Status * option error) :=
  do ((userByName, nameErr), (userByID, uidErr)) <- lookups u ;
  let status := zero in
  if isErrUnsupported nameErr then
    ret (setWarningLevel StatusFatal status, Some ErrUnsupported)
  else if String.eqb (State u) StatePresent then
    if String.eqb (UID u) "" then
      let nameNotFound := isUnknownUserError nameErr in
      if nameNotFound then
        addUser u status ("error adding user " +:+ Username u)
                         ("added user " +:+ Username u)
      else
        ret (setWarningLevel StatusFatal status,
             Some (Errorf ("will not attempt add: user " +:+ Username u)))
    else
      let nameNotFound := isUnknownUserError nameErr in
      let uidNotFound := isUnknownUserIdError uidErr in
      if nameNotFound && uidNotFound then
        addUser u status
          ("error adding user " +:+ Username u +:+ " with uid " +:+ UID u)
          ("added user " +:+ Username u +:+ " with uid " +:+ UID u)
      else
        ret (setWarningLevel StatusFatal status,
             Some (Errorf ("will not attempt add: user " +:+ Username u
                           +:+ " with uid " +:+ UID u)))
  else if String.eqb (State u) StateAbsent then
    if String.eqb (UID u) "" then
      let nameNotFound := isUnknownUserError nameErr in
      if negb nameNotFound && notNil userByName then
        delUser u status ("error deleting user " +:+ Username u)
                         ("deleted user " +:+ Username u)
      else
        ret (setWarningLevel StatusFatal status,
             Some (Errorf ("will not attempt delete: user " +:+ Username u)))
    else
      let nameNotFound := isUnknownUserError nameErr in
      let uidNotFound := isUnknownUserIdError uidErr in
      if negb nameNotFound && negb uidNotFound && sameUser userByName userByID then
        delUser u status
          ("error deleting user " +:+ Username u +:+ " with uid " +:+ UID u)
          ("deleted user " +:+ Username u +:+ " with uid " +:+ UID u)
      else
        ret (setWarningLevel StatusFatal status,
             Some (Errorf ("will not attempt delete: user " +:+ Username u
                           +:+ " with uid " +:+ UID u)))
  else
    ret (setWarningLevel StatusFatal status,
         Some (Errorf ("user: unrecognized state " +:+ State u))).

(** The calls to AddUser in a log. *)
Definition isAddUser (c : Call) : bool :=
  match c with CallAddUser _ _ => true | _ => false end.

Definition addUserCalls (log : list Call) : list Call :=
  List.filter isAddUser log.

End System.

Arguments AddUser {Sys}.
Arguments DelUser {Sys}.
Arguments Lookup {Sys}.
Arguments LookupID {Sys}.
Arguments LookupGroupID {Sys}.
Arguments UID {Sys}.
Arguments GID {Sys}.
Arguments Username {Sys}.
Arguments Name {Sys}.
Arguments HomeDir {Sys}.
Arguments State {Sys}.
Arguments system {Sys}.
Arguments ret {Sys A}.
Arguments panic {Sys A}.
Arguments bind {Sys A B}.
Arguments invoke {Sys A}.
Arguments differentUsers {Sys}.
Arguments lookups {Sys}.
Arguments withGroupChecked {Sys}.
Arguments Check {Sys}.
Arguments SetUserAddOptions {Sys}.
Arguments addUser {Sys}.
Arguments delUser {Sys}.
Arguments Apply {Sys}.

End user.

(* --------------------------------------------------------------------- *)
(** ** package param                                                      *)
(* --------------------------------------------------------------------- *)
Module param.

(** An [interface{}] holding a value of the configuration language. *)
Inductive interface :=
| nil
| ofString (s : string)
| ofInt (n : Z)
| ofBool (b : bool)
| ofList (l : list interface)
| ofMap (m : list (string * interface)).

(** [x == nil] *)
Definition isNil (x : interface) : bool :=
  match x with nil => true | _ => false end.

(** The part of resource.Renderer that Prepare uses: the pair that
    [render.Value()] returns. *)
Record Renderer := { Value : interface * bool }.

Record Param := { Val : interface }.

Record Preparer := { Default : interface }.

Definition Prepare (p : Preparer) (render : Renderer) : option Param * option error :=
  let '(val, present) := Value render in
  if present then (Some {| Val := val |}, None)
  else if isNil (Default p) then (None, Some (Errorf "param is required"))
  else (Some {| Val := Default p |}, None).

End param.

(* --------------------------------------------------------------------- *)
(** ** package pb: the protobuf declaration of the RPC surface            *)
(* --------------------------------------------------------------------- *)
Module pb.

Inductive FieldType :=
| TString
| TBool
| TNamed (name : string)              (* an enum or a message *)
| TRepeated (elem : FieldType)
| TMap (key value : FieldType).

Record Field := { fieldType : FieldType; fieldName : string; fieldNumber : nat }.

Record Enum := { enumName : string; enumValues : list (string * nat) }.

Inductive Message :=
| Msg (name : string) (enums : list Enum) (nested : list Message) (fields : list Field).

Definition messageName (m : Message) : string := let 'Msg n _ _ _ := m in n.
Definition enums (m : Message) : list Enum := let 'Msg _ e _ _ := m in e.
Definition nested (m : Message) : list Message := let 'Msg _ _ n _ := m in n.
Definition fields (m : Message) : list Field := let 'Msg _ _ _ f := m in f.

Definition LocationRequest : Message :=
  Msg "LocationRequest" [] []
    [ {| fieldType := TString; fieldName := "location"; fieldNumber := 1 |} ].

Definition ExecRequest : Message :=
  Msg "ExecRequest" [] []
    [ {| fieldType := TString; fieldName := "location"; fieldNumber := 1 |};
      {| fieldType := TMap TString TString; fieldName := "parameters"; fieldNumber := 2 |} ].

Definition ContentResponse : Message :=
  Msg "ContentResponse" [] []
    [ {| fieldType := TString; fieldName := "content"; fieldNumber := 1 |} ].

Definition Stage : Enum :=
  {| enumName := "Stage";
     enumValues := [ ("UNSPECIFIED_STAGE", 0); ("PLAN", 1); ("APPLY", 2) ] |}.

Definition Run : Enum :=
  {| enumName := "Run";
     enumValues := [ ("UNSPECIFIED_RUN", 0); ("STARTED", 1); ("FINISHED", 2) ] |}.

Definition Details : Message :=
  Msg "Details" [] []
    [ {| fieldType := TRepeated TString; fieldName := "messages"; fieldNumber := 1 |};
      {| fieldType := TMap TString (TNamed "DiffResponse"); fieldName := "changes";
         fieldNumber := 2 |};
      {| fieldType := TBool; fieldName := "hasChanges"; fieldNumber := 3 |};
      {| fieldType := TString; fieldName := "error"; fieldNumber := 4 |} ].

Definition StatusResponse : Message :=
  Msg "StatusResponse" [Stage; Run] [Details]
    [ {| fieldType := TString; fieldName := "id"; fieldNumber := 1 |};
      {| fieldType := TNamed "Stage"; fieldName := "stage"; fieldNumber := 2 |};
      {| fieldType := TNamed "Run"; fieldName := "run"; fieldNumber := 3 |};
      {| fieldType := TNamed "Details"; fieldName := "details"; fieldNumber := 4 |} ].

Definition DiffResponse : Message :=
  Msg "DiffResponse" [] []
    [ {| fieldType := TString; fieldName := "original"; fieldNumber := 1 |};
      {| fieldType := TString; fieldName := "current"; fieldNumber := 2 |};
      {| fieldType := TBool; fieldName := "changes"; fieldNumber := 3 |} ].

(** The messages of the file, in the order of declaration. *)
Definition file : list Message :=
  [LocationRequest; ExecRequest; ContentResponse; StatusResponse; DiffResponse].

Definition findMessage (ms : list Message) (name : string) : option Message :=
  List.find (fun m => String.eqb (messageName m) name) ms.

Definition findEnum (m : Message) (name : string) : option Enum :=
  List.find (fun e => String.eqb (enumName e) name) (enums m).

Definition findField (m : Message) (name : string) : option Field :=
  List.find (fun f => String.eqb (fieldName f) name) (fields m).

(** The number and the type under which a message carries a field. *)
Definition wire (m : Message) (name : string) : option (nat * FieldType) :=
  match findField m name with
  | Some f => Some (fieldNumber f, fieldType f)
  | None => None
  end.

(** The field names of a message with their numbers. *)
Definition numbering (m : Message) : list (string * nat) :=
  map (fun f => (fieldName f, fieldNumber f)) (fields m).

(** The reference schema as the specification words it,
      StatusResponse { id, Stage stage, Run run, Details details }
      Details        { messages[], changes map<string,DiffResponse>, hasChanges, error }
      DiffResponse   { original, current, changes }
    with the field numbers that existing clients rely on. *)
Definition referenceSchema : list (string * list (string * nat)) :=
  [ ("StatusResponse", [("id", 1); ("stage", 2); ("run", 3); ("details", 4)]);
    ("Details", [("messages", 1); ("changes", 2); ("hasChanges", 3); ("error", 4)]);
    ("DiffResponse", [("original", 1); ("current", 2); ("changes", 3)]) ].

(** The messages of the status stream as the source declares them:
    Details is nested in StatusResponse. *)
Definition statusMessages : list Message :=
  match findMessage file "StatusResponse", findMessage file "DiffResponse" with
  | Some sr, Some dr => sr :: nested sr ++ [dr]
  | _, _ => []
  end.

Definition schemaOf (ms : list Message) : list (string * list (string * nat)) :=
  map (fun m => (messageName m, numbering m)) ms.

End pb.

(* --------------------------------------------------------------------- *)
(** ** A target system for running the user task                          *)
(* --------------------------------------------------------------------- *)
Module passwd.

(** The accounts and groups of a host, and an implementation of
    user.SystemUtils over them that answers the way os/user does. *)
Record Host := { users : list osuser.User; groups : list osuser.Group }.

Definition byName (name : string) (h : Host) : option osuser.User :=
  List.find (fun a => String.eqb (osuser.Username a) name) (users h).

Definition byUid (uid : string) (h : Host) : option osuser.User :=
  List.find (fun a => String.eqb (osuser.Uid a) uid) (users h).

Definition byGid (gid : string) (h : Host) : option osuser.Group :=
  List.find (fun a => String.eqb (osuser.GroupGid a) gid) (groups h).

Definition Lookup (name : string) (h : Host) : (option osuser.User * option error) * Host :=
  match byName name h with
  | Some a => ((Some a, None), h)
  | None => ((None, Some (UnknownUserError name)), h)
  end.

Definition LookupID (uid : string) (h : Host) : (option osuser.User * option error) * Host :=
  match byUid uid h with
  | Some a => ((Some a, None), h)
  | None => ((None, Some (UnknownUserIdError uid)), h)
  end.

Definition LookupGroupID (gid : string) (h : Host)
  : (option osuser.Group * option error) * Host :=
  match byGid gid h with
  | Some a => ((Some a, None), h)
  | None => ((None, Some (UnknownGroupIdError gid)), h)
  end.

Definition AddUser (name : string) (options : gmap string string) (h : Host)
  : option error * Host :=
  let account :=
    {| osuser.Uid := default "1000" (options !! "uid");
       osuser.Gid := default "1000" (options !! "gid");
       osuser.Username := name;
       osuser.Name := default "" (options !! "comment");
       osuser.HomeDir := default ("/home/" +:+ name) (options !! "directory") |} in
  (None, {| users := users h ++ [account]; groups := groups h |}).

Definition DelUser (name : string) (h : Host) : option error * Host :=
  (None, {| users := List.filter (fun a => negb (String.eqb (osuser.Username a) name)) (users h);
            groups := groups h |}).

Definition system : user.SystemUtils Host :=
  user.Build_SystemUtils Host AddUser DelUser Lookup LookupID LookupGroupID.

(** The task [user "alice" { state = ... }] against this system. *)
Definition task (uid gid state : string) : user.User Host :=
  user.Build_User Host uid gid "alice" "" "" state system.

Definition empty : Host := {| users := []; groups := [] |}.

End passwd.

(* --------------------------------------------------------------------- *)
(** ** Sample modules, templates and graphs                               *)
(* --------------------------------------------------------------------- *)
Module samples.

(** A block of a module with the given [depends] list, string-valued
    leaves and [group]; an empty list or group stands for an absent
    key. *)
Definition block (depends strings : list string) (group : string) : parse.Node :=
  {| parse.GetStringSlice_depends :=
       match depends with [] => ([], Some ErrNotFound) | _ => (depends, None) end;
     parse.GetStrings := (strings, None);
     parse.GetString_group :=
       if String.eqb group "" then ("", Some ErrNotFound) else (group, None) |}.

(** What the recording languages leave behind for the templates used
    in the samples; any other string is plain text. *)
Definition paramCalls (s : string) : load.parsed :=
  if String.eqb s "{{param `a`}}-{{param `b`}}" then load.Recorded ["a"; "b"]
  else if String.eqb s "{{param" then load.ParseError (Errorf "template: unclosed action")
  else load.Recorded [].

Definition refCalls (s : string) : load.parsed :=
  if String.eqb s "{{lookup `task.build.status`}}" then load.Recorded ["task.build.status"]
  else if String.eqb s "{{lookup `task.gone.status`}}" then load.Recorded ["task.gone.status"]
  else if String.eqb s "{{param" then load.ParseError (Errorf "template: unclosed action")
  else load.Recorded [].

(** The one reference that resolves in the samples: to the task
    [build] of the module [m], when the graph has it. *)
Definition VertexSplitTraverse (g : graph.Graph) (call id : string) : option string :=
  if String.eqb call "task.build.status" then
    match graph.Get g "root/module.m/task.build" with
    | Some _ => Some "root/module.m/task.build"
    | None => None
    end
  else None.

Definition ResolveDependencies : list string -> graph.Graph -> graph.Graph * option error :=
  load.ResolveDependencies paramCalls refCalls VertexSplitTraverse.

Definition noGraph : graph.Graph := {| graph.vertices := ∅; graph.edges := ∅ |}.

Definition graphOf (nodes : list node.Node) (edges : list (string * string)) : graph.Graph :=
  foldl (fun g e => graph.Connect g (fst e) (snd e)) (foldl graph.Add noGraph nodes) edges.

(** A graph in which the nearest sibling named "x" of [root/m/y] is a
    prepared task and the next one up is a parse node. *)
Definition shadowed : graph.Graph :=
  graphOf
    [ node.New "root" (VInt 0);
      node.New "root/x" (VParse (block [] [] ""));
      node.New "root/m" (VParse (block [] [] ""));
      node.New "root/m/x" (VTask "*shell.Shell");
      node.New "root/m/y" (VParse (block [] [] "")) ]
    [ ("root/x", "root"); ("root/m", "root"); ("root/m/x", "root/m"); ("root/m/y", "root/m") ].

(** A task that uses two parameters, neither of which is declared. *)
Definition undeclared : graph.Graph :=
  graphOf
    [ node.New "root" (VInt 0);
      node.New "root/task.x" (VParse (block [] ["{{param `a`}}-{{param `b`}}"] "")) ]
    [ ("root/task.x", "root") ].

(** A task that depends on a vertex that is not there. *)
Definition dangling : graph.Graph :=
  graphOf
    [ node.New "root" (VInt 0);
      node.New "root/task.install-jq"
        (VParse (block ["install-build-essential"] [] "")) ]
    [ ("root/task.install-jq", "root") ].





(** Three tasks of the group "apt" in two modules.  The containment
    edges run from child to parent, or from parent to child when
    [downwards] is set. *)
Definition containment (downwards : bool) (child parent : string) : string * string :=
  if downwards then (parent, child) else (child, parent).

Definition grouped (downwards : bool) : graph.Graph :=
  graphOf
    [ node.New "root" (VInt 0);
      node.New "root/a" (VParse (block [] [] ""));
      node.New "root/a/x" (VParse (block [] ["apt"] "apt"));
      node.New "root/a/z" (VParse (block [] ["apt"] "apt"));
      node.New "root/b" (VParse (block [] [] ""));
      node.New "root/b/y" (VParse (block [] ["apt"] "apt")) ]
    [ containment downwards "root/a" "root"; containment downwards "root/b" "root";
      containment downwards "root/a/x" "root/a"; containment downwards "root/a/z" "root/a";
      containment downwards "root/b/y" "root/b" ].

Definition groupedOrder : list string :=
  ["root/b/y"; "root/a/z"; "root"; "root/a"; "root/a/x"; "root/b"].

(** Whether the set [S] of vertices is closed under the edges [E]. *)
Definition closed (E : gset (string * string)) (S : gset string) : bool :=
  forallb (fun e => implb (bool_decide (fst e ∈ S)) (bool_decide (snd e ∈ S))) (elements E).

End samples.

(* --------------------------------------------------------------------- *)
(** ** package plan: result.go                                            *)
(* --------------------------------------------------------------------- *)
Module plan.

Section Result.
(** resource.Task, resource.TaskStatus and resource.Diff are
    interfaces; Result is read relative to the methods it calls:
    [Diffs()] and [Changes()] of a status, [Changes()], [Original()] and
    [Current()] of a difference. *)
Context {task status diff : Type}.
Variable Diffs : status -> gmap string diff.
Variable StatusChanges : status -> bool.
Variable Changes : diff -> bool.
Variable Original : diff -> string.
Variable Current : diff -> string.

(** The interface fields hold a value or nil. *)
Record Result := {
  Task : option task;
  Status : option status;
  Err : option error
}.

(** [for key, diff := range r.Status.Diffs() { if diff.Changes() { ... } }];
    [None] is the panic of calling a method on the nil [r.Status]. *)
Definition Fields (r : Result) : option (gmap string (string * string)) :=
  match Status r with
  | None => None
  | Some st =>
      Some (map_fold
              (fun key d (diffOutput : gmap string (string * string)) =>
                 if Changes d then <[key := (Original d, Current d)]> diffOutput
                 else diffOutput)
              ∅ (Diffs st))
  end.

Definition HasChanges (r : Result) : option bool :=
  match Status r with
  | None => None
  | Some st => Some (StatusChanges st)
  end.

Definition Error (r : Result) : option error := Err r.

End Result.

End plan.

(* --------------------------------------------------------------------- *)
(** ** What a run of the user task does to the system                     *)
(* --------------------------------------------------------------------- *)
Module calls.

(** The calls of SystemUtils that change the system. *)
Definition mutating (c : user.Call) : bool :=
  match c with
  | user.CallAddUser _ _ | user.CallDelUser _ => true
  | _ => false
  end.

Definition mutations (log : list user.Call) : list user.Call :=
  List.filter mutating log.

(** A system on which every lookup fails for a reason of its own: the
    account files cannot be read. *)
Definition unreadable : user.SystemUtils unit :=
  user.Build_SystemUtils unit
    (fun _ _ s => (None, s))
    (fun _ s => (None, s))
    (fun _ s => ((None, Some (Errorf "open /etc/passwd: permission denied")), s))
    (fun _ s => ((None, Some (Errorf "open /etc/passwd: permission denied")), s))
    (fun _ s => ((None, Some (Errorf "open /etc/group: permission denied")), s)).

End calls.

(* --------------------------------------------------------------------- *)
(** ** The edges of a resolved graph                                      *)
(* --------------------------------------------------------------------- *)
Module resolution.

(** The vertex [v] of [g] reports the group [group]. *)
Definition reports (g : graph.Graph) (v group : string) : Prop :=
  exists meta, graph.Get g v = Some meta /\ load.reportedGroup meta = Some group.

(** The edge [e] serializes two members of a group: they are adjacent
    in the ascending list of the vertices that report the group. *)
Definition serializing (g : graph.Graph) (e : string * string) : Prop :=
  exists group ms i prev cur,
    Sorted (fun a b => String.ltb a b = true) ms
    /\ (forall v, v ∈ ms <-> reports g v group)
    /\ ms !! i = Some prev
    /\ ms !! S i = Some cur
    /\ e = load.groupEdge cur prev.

Section Generated.
Variable paramCalls : string -> load.parsed.
Variable refCalls : string -> load.parsed.
Variable VertexSplitTraverse : graph.Graph -> string -> string -> option string.

(** The edge [e] leads from a vertex other than the root to one of the
    dependencies that its generators return. *)
Definition generated (g : graph.Graph) (e : string * string) : Prop :=
  exists meta node d1 d2 d3,
    graph.Get g (fst e) = Some meta
    /\ graph.IsRoot (fst e) = false
    /\ asParseNode (node.Value_of meta) = Some node
    /\ load.getDepends g (fst e) node = (d1, None)
    /\ load.getParams paramCalls g (fst e) node = (d2, None)
    /\ load.getXrefs refCalls VertexSplitTraverse g (fst e) node = (d3, None)
    /\ snd e ∈ d1 ++ d2 ++ d3.

End Generated.

(** A module [a] and its task [a/x], both in the group "apt". *)
Definition nested : graph.Graph :=
  samples.graphOf
    [ node.New "root" (VInt 0);
      node.New "root/a" (VParse (samples.block [] ["apt"] "apt"));
      node.New "root/a/x" (VParse (samples.block [] ["apt"] "apt")) ]
    [ ("root/a", "root"); ("root/a/x", "root/a") ].

(** A task with dependencies, parameters and a lookup that all resolve. *)
Definition wired : graph.Graph :=
  samples.graphOf
    [ node.New "root" (VInt 0);
      node.New "root/param.a" (VParse (samples.block [] [] ""));
      node.New "root/module.m" (VParse (samples.block [] [] ""));
      node.New "root/module.m/param.b" (VParse (samples.block [] [] ""));
      node.New "root/module.m/task.build" (VParse (samples.block [] [] ""));
      node.New "root/module.m/task.use"
        (VParse (samples.block ["task.build"]
                   ["{{param `a`}}-{{param `b`}}"; "{{lookup `task.build.status`}}"] "")) ]
    [ ("root/param.a", "root"); ("root/module.m", "root");
      ("root/module.m/param.b", "root/module.m");
      ("root/module.m/task.build", "root/module.m");
      ("root/module.m/task.use", "root/module.m") ].

Definition wiredBlock : parse.Node :=
  samples.block ["task.build"]
    ["{{param `a`}}-{{param `b`}}"; "{{lookup `task.build.status`}}"] "".

End resolution.

(* ===================================================================== *)
(** * Part II: properties                                                 *)
(* ===================================================================== *)

(* --------------------------------------------------------------------- *)
(** ** The param preparer                                                 *)
(* --------------------------------------------------------------------- *)

(** C9.  Prepare returns a Param carrying the value of the renderer
    whenever the renderer reports one as present, whatever the value is;
    otherwise a Param carrying the declared Default; and the error
    "param is required" is returned exactly when no value is present and
    Default is nil. *)
Theorem param_Prepare_cases (p : param.Preparer) (val : param.interface) (present : bool) :
  let result := param.Prepare p {| param.Value := (val, present) |} in
  (present = true -> result = (Some {| param.Val := val |}, None))
  /\ (present = false -> param.Default p <> param.nil ->
      result = (Some {| param.Val := param.Default p |}, None))
  /\ (snd result = Some (Errorf "param is required")
      <-> present = false /\ param.Default p = param.nil)
  /\ (snd result = None \/ snd result = Some (Errorf "param is required")).
Proof.
  unfold param.Prepare; simpl.
  destruct present, (param.Default p) eqn:D; simpl; repeat split;
    try tauto; try congruence; try discriminate; intuition (try discriminate; try congruence).
Qed.

(** A value that is present is used even when it is the zero value of
    its type, here the empty string. *)
Example param_Prepare_empty_string :
  param.Prepare {| param.Default := param.ofString "fallback" |}
                {| param.Value := (param.ofString "", true) |}
  = (Some {| param.Val := param.ofString "" |}, None).
Proof. reflexivity. Qed.

Lemma param_Prepare_cases_witness :
  param.Prepare {| param.Default := param.ofString "en" |}
                {| param.Value := (param.nil, false) |}
  = (Some {| param.Val := param.ofString "en" |}, None).
Proof.
  apply (param_Prepare_cases {| param.Default := param.ofString "en" |} param.nil false).
  - reflexivity.
  - simpl. discriminate.
Defined.

(* --------------------------------------------------------------------- *)
(** ** The status wire schema                                             *)
(* --------------------------------------------------------------------- *)

(** C8.  The messages of the status stream carry the fields of the
    reference schema under the same numbers: StatusResponse has id (1),
    stage (2), run (3), details (4), Stage enumerates PLAN and APPLY and
    Run enumerates STARTED and FINISHED (each after the zero value that
    proto3 requires); Details has messages (1), changes (2), a map from
    string to DiffResponse, hasChanges (3), error (4); DiffResponse has
    original (1), current (2), changes (3). *)
Theorem status_schema_preserved :
  pb.schemaOf pb.statusMessages = pb.referenceSchema
  /\ pb.wire pb.StatusResponse "id" = Some (1, pb.TString)
  /\ pb.wire pb.StatusResponse "stage" = Some (2, pb.TNamed "Stage")
  /\ pb.wire pb.StatusResponse "run" = Some (3, pb.TNamed "Run")
  /\ pb.wire pb.StatusResponse "details" = Some (4, pb.TNamed "Details")
  /\ (pb.enumValues <$> pb.findEnum pb.StatusResponse "Stage")
     = Some [("UNSPECIFIED_STAGE", 0); ("PLAN", 1); ("APPLY", 2)]
  /\ (pb.enumValues <$> pb.findEnum pb.StatusResponse "Run")
     = Some [("UNSPECIFIED_RUN", 0); ("STARTED", 1); ("FINISHED", 2)]
  /\ pb.findMessage (pb.nested pb.StatusResponse) "Details" = Some pb.Details
  /\ pb.wire pb.Details "messages" = Some (1, pb.TRepeated pb.TString)
  /\ pb.wire pb.Details "changes" = Some (2, pb.TMap pb.TString (pb.TNamed "DiffResponse"))
  /\ pb.wire pb.Details "hasChanges" = Some (3, pb.TBool)
  /\ pb.wire pb.Details "error" = Some (4, pb.TString)
  /\ pb.findMessage pb.file "DiffResponse" = Some pb.DiffResponse
  /\ pb.wire pb.DiffResponse "original" = Some (1, pb.TString)
  /\ pb.wire pb.DiffResponse "current" = Some (2, pb.TString)
  /\ pb.wire pb.DiffResponse "changes" = Some (3, pb.TBool).
Proof. repeat split; reflexivity. Qed.

(* --------------------------------------------------------------------- *)
(** ** Nodes                                                              *)
(* --------------------------------------------------------------------- *)

(** The cases of TestWithGroupable. *)
Example TestWithGroupable_New :
  node.Group (node.New "test" (VGroupable "somegroup")) = "somegroup".
Proof. reflexivity. Qed.

Example TestWithGroupable_WithValue :
  let fst := node.New "test" (VInt 1) in
  node.Group fst = "" /\ node.Group (node.WithValue fst (VGroupable "somegroup")) = "somegroup".
Proof. split; reflexivity. Qed.

Lemma groupFrom_groupable (v : Value) (g : string) :
  asGroupable v = Some g -> node.groupFrom v = g.
Proof.
  unfold node.groupFrom. intros ->.
  destruct (String.eqb g "") eqn:E; [|reflexivity].
  apply String.eqb_eq in E. congruence.
Qed.

(** C6.  A node built with value [v], by New or by WithValue, has as its
    Group the string that [v.Group()] returns when [v] has that method
    and the string is not empty, and the empty string otherwise. *)
Theorem node_group_from_value (id : string) (n : node.Node) (v : Value) :
  (forall g, asGroupable v = Some g -> g <> "" ->
     node.Group (node.New id v) = g /\ node.Group (node.WithValue n v) = g)
  /\ (asGroupable v = None \/ asGroupable v = Some "" ->
     node.Group (node.New id v) = "" /\ node.Group (node.WithValue n v) = "").
Proof.
  split.
  - intros g Hg _. simpl. rewrite (groupFrom_groupable v g Hg). done.
  - intros [Hv | Hv]; simpl; unfold node.groupFrom; rewrite Hv; done.
Qed.

Lemma node_group_from_value_witness :
  node.Group (node.New "test" (VGroupable "somegroup")) = "somegroup"
  /\ node.Group (node.WithValue (node.New "test" (VInt 1)) (VGroupable "somegroup")) = "somegroup".
Proof.
  apply (node_group_from_value "test" (node.New "test" (VInt 1)) (VGroupable "somegroup")).
  - reflexivity.
  - discriminate.
Defined.

(** The cases of TestWithValue, run on the store. *)
Example TestWithValue_base :
  let '(fst, h) := node.NewPtr "test" (VInt 1) [] in
  match node.WithValuePtr fst (VInt 2) h with
  | Some (snd, h') => node.Value_of <$> node.deref snd h' = Some (VInt 2)
  | None => False
  end.
Proof. reflexivity. Qed.

Example TestWithValue_shadowing :
  let '(fst, h) := node.NewPtr "test" (VInt 1) [] in
  match node.WithValuePtr fst (VInt 2) h with
  | Some (snd, h') =>
      (node.assign snd (node.SetID "other") h' ≫= fun h'' => node.ID <$> node.deref fst h'')
      = Some "test"
      /\ (node.assign fst (node.SetID "other") h' ≫= fun h'' => node.ID <$> node.deref snd h'')
      = Some "test"
  | None => False
  end.
Proof. split; reflexivity. Qed.

(** C7.  [q := p.WithValue(v')] yields a node that carries [v'] and lives
    at an address of its own: [p] still holds what it held, and an
    assignment to an attribute of either node succeeds and leaves what
    is read through the other pointer as it was. *)
Theorem WithValue_shares_nothing
    (h : list node.Node) (p : nat) (n : node.Node) (v' : Value) (a : node.Assignment) :
  node.deref p h = Some n ->
  exists q h',
    node.WithValuePtr p v' h = Some (q, h')
    /\ node.Value_of <$> node.deref q h' = Some v'
    /\ q <> p
    /\ node.deref p h' = Some n
    /\ (exists h'', node.assign p a h' = Some h'' /\ node.deref q h'' = node.deref q h'
                    /\ node.deref p h'' = Some (node.assignField a n))
    /\ (exists h'', node.assign q a h' = Some h'' /\ node.deref p h'' = node.deref p h'
                    /\ node.deref q h'' = Some (node.assignField a (node.WithValue n v'))).
Proof.
  unfold node.deref, node.WithValuePtr, node.alloc, node.assign. intros Hp.
  pose proof (lookup_lt_Some _ _ _ Hp) as Hlt.
  exists (length h), (h ++ [node.WithValue n v']).
  assert (Hq : (h ++ [node.WithValue n v']) !! length h = Some (node.WithValue n v')).
  { rewrite lookup_app_r by lia. by rewrite Nat.sub_diag. }
  assert (Hp' : (h ++ [node.WithValue n v']) !! p = Some n).
  { by rewrite lookup_app_l. }
  rewrite Hp, Hq, Hp'. repeat split.
  - lia.
  - eexists; split; [reflexivity|]. split.
    + rewrite list_lookup_insert_ne by lia. done.
    + apply list_lookup_insert_eq. rewrite length_app. simpl. lia.
  - eexists; split; [reflexivity|]. split.
    + rewrite list_lookup_insert_ne by lia. done.
    + apply list_lookup_insert_eq. rewrite length_app. simpl. lia.
Qed.

Lemma WithValue_shares_nothing_witness :
  exists q h',
    node.WithValuePtr 0 (VInt 2) [node.New "test" (VInt 1)] = Some (q, h')
    /\ node.Value_of <$> node.deref q h' = Some (VInt 2)
    /\ q <> 0
    /\ node.deref 0 h' = Some (node.New "test" (VInt 1))
    /\ (exists h'', node.assign 0 (node.SetID "other") h' = Some h''
                    /\ node.deref q h'' = node.deref q h'
                    /\ node.deref 0 h''
                       = Some (node.assignField (node.SetID "other") (node.New "test" (VInt 1))))
    /\ (exists h'', node.assign q (node.SetID "other") h' = Some h''
                    /\ node.deref 0 h'' = node.deref 0 h'
                    /\ node.deref q h''
                       = Some (node.assignField (node.SetID "other")
                                 (node.WithValue (node.New "test" (VInt 1)) (VInt 2)))).
Proof.
  apply (WithValue_shares_nothing [node.New "test" (VInt 1)] 0 (node.New "test" (VInt 1))
           (VInt 2) (node.SetID "other")).
  reflexivity.
Defined.

(* --------------------------------------------------------------------- *)
(** ** The user task                                                      *)
(* --------------------------------------------------------------------- *)

(** Exposes the fields of a status built by the setters of package
    resource. *)
Ltac status_unfold :=
  unfold user.ret, resource.setWillChange, resource.AddDifference, resource.appendOutput,
    resource.setWarningLevel, resource.zero, user.StateAbsent;
  simpl.

Section UserTask.
Context {Sys : Type}.
Implicit Types (u : user.User Sys) (s : Sys) (log : list user.Call).

(** Running the pair of lookups that Check and Apply start with. *)
Lemma lookups_no_uid u s log r s1 :
  user.UID u = "" ->
  user.Lookup (user.system u) (user.Username u) s = (r, s1) ->
  user.lookups u (s, log)
  = (user.Returned (r, (None, None)), (s1, log ++ [user.CallLookup (user.Username u)])).
Proof.
  intros Huid Hl. unfold user.lookups, user.bind, user.invoke, user.ret. simpl.
  rewrite Hl, Huid. reflexivity.
Qed.

Lemma lookups_uid u s log r s1 r' s2 :
  user.UID u <> "" ->
  user.Lookup (user.system u) (user.Username u) s = (r, s1) ->
  user.LookupID (user.system u) (user.UID u) s1 = (r', s2) ->
  user.lookups u (s, log)
  = (user.Returned (r, r'),
     (s2, log ++ [user.CallLookup (user.Username u); user.CallLookupID (user.UID u)])).
Proof.
  intros Huid Hl Hi. unfold user.lookups, user.bind, user.invoke, user.ret. simpl.
  rewrite Hl. unfold user.nonEmpty.
  destruct (String.eqb (user.UID u) "") eqn:E.
  { apply String.eqb_eq in E. contradiction. }
  simpl. rewrite Hi. by rewrite <- app_assoc.
Qed.

(** C10.  For a task with State "absent": with no UID configured and
    the lookup of the name reporting UnknownUserError, Check returns a
    status at StatusFatal with the message "user USERNAME does not
    exist" and a nil error; with a UID configured and the lookups of
    name and uid both reporting unknown, Check returns StatusNoChange. *)
Theorem Check_absent_unknown_user u s log byName name s1 :
  user.State u = "absent" ->
  user.Lookup (user.system u) (user.Username u) s = ((byName, Some (UnknownUserError name)), s1) ->
  (user.UID u = "" ->
     user.Check u (s, log)
     = (user.Returned
          ({| resource.WarningLevel := resource.StatusFatal;
              resource.Output := ["user " +:+ user.Username u +:+ " does not exist"];
              resource.WillChange := false;
              resource.Differences := ∅ |}, None),
        (s1, log ++ [user.CallLookup (user.Username u)])))
  /\ (user.UID u <> "" ->
      forall byID uid s2,
        user.LookupID (user.system u) (user.UID u) s1
        = ((byID, Some (UnknownUserIdError uid)), s2) ->
        user.Check u (s, log)
        = (user.Returned
             ({| resource.WarningLevel := resource.StatusNoChange;
                 resource.Output := ["user name and uid do not exist"];
                 resource.WillChange := false;
                 resource.Differences := ∅ |}, None),
           (s2, log ++ [user.CallLookup (user.Username u); user.CallLookupID (user.UID u)]))).
Proof.
  intros Hst Hl. split.
  - intros Huid. unfold user.Check, user.bind at 1.
    rewrite (lookups_no_uid u s log _ s1 Huid Hl).
    rewrite Hst, Huid. reflexivity.
  - intros Huid byID uid s2 Hi. unfold user.Check, user.bind at 1.
    rewrite (lookups_uid u s log _ s1 _ s2 Huid Hl Hi).
    rewrite Hst. simpl.
    destruct (String.eqb (user.UID u) "") eqn:E.
    { apply String.eqb_eq in E. contradiction. }
    reflexivity.
Qed.

(** C2, as the code has it.  For a task with State "present" and no
    UID, when the lookup of the name reports UnknownUserError and the
    configured GID, if any, exists: Check returns a status at
    StatusWillChange whose only difference is "user", from "absent" to
    "user USERNAME"; Apply, finding the name still unknown, calls
    AddUser once, with the options of the task; and a Check run once
    the lookup finds the user returns a status at StatusFatal with the
    message "user USERNAME already exists" and a nil error. *)
Theorem Check_Apply_present_unknown_user u s log name s1 s1' glog :
  user.State u = "present" ->
  user.UID u = "" ->
  user.Lookup (user.system u) (user.Username u) s = ((None, Some (UnknownUserError name)), s1) ->
  (user.GID u = "" /\ s1' = s1 /\ glog = []
   \/ user.GID u <> "" /\ glog = [user.CallLookupGroupID (user.GID u)]
      /\ exists grp, user.LookupGroupID (user.system u) (user.GID u) s1 = ((grp, None), s1')) ->
  user.Check u (s, log)
  = (user.Returned
       ({| resource.WarningLevel := resource.StatusWillChange;
           resource.Output := ["user does not exist"];
           resource.WillChange := true;
           resource.Differences :=
             {[ "user" := {| resource.Original := "absent";
                             resource.Current := "user " +:+ user.Username u |} ]} |}, None),
     (s1', log ++ [user.CallLookup (user.Username u)] ++ glog))
  /\ (forall s' log' byName' name' s2 err s3,
        user.Lookup (user.system u) (user.Username u) s'
        = ((byName', Some (UnknownUserError name')), s2) ->
        user.AddUser (user.system u) (user.Username u) (user.SetUserAddOptions u) s2
        = (err, s3) ->
        exists status,
          user.Apply u (s', log')
          = (user.Returned (status, err),
             (s3, log' ++ [user.CallLookup (user.Username u);
                           user.CallAddUser (user.Username u) (user.SetUserAddOptions u)]))
          /\ length (user.addUserCalls
                       [user.CallLookup (user.Username u);
                        user.CallAddUser (user.Username u) (user.SetUserAddOptions u)]) = 1)
  /\ (forall s' log' account s2,
        user.Lookup (user.system u) (user.Username u) s' = ((Some account, None), s2) ->
        user.Check u (s', log')
        = (user.Returned
             ({| resource.WarningLevel := resource.StatusFatal;
                 resource.Output := ["user " +:+ user.Username u +:+ " already exists"];
                 resource.WillChange := false;
                 resource.Differences := ∅ |}, None),
           (s2, log' ++ [user.CallLookup (user.Username u)]))).
Proof.
  intros Hst Huid Hl Hgid. repeat split.
  - unfold user.Check, user.bind at 1.
    rewrite (lookups_no_uid u s log _ s1 Huid Hl).
    rewrite Hst, Huid. simpl. unfold user.withGroupChecked, user.nonEmpty.
    destruct Hgid as [(Hg & -> & ->) | (Hg & -> & grp & Hgrp)].
    + rewrite Hg. simpl. status_unfold. by rewrite insert_empty.
    + destruct (String.eqb (user.GID u) "") eqn:E.
      { apply String.eqb_eq in E. contradiction. }
      simpl. unfold user.bind, user.invoke. simpl. rewrite Hgrp.
      status_unfold. rewrite insert_empty. by rewrite <- app_assoc.
  - intros s' log' byName' name' s2 err s3 Hl' Hadd.
    unfold user.Apply, user.bind at 1.
    rewrite (lookups_no_uid u s' log' _ s2 Huid Hl').
    rewrite Hst, Huid. simpl. unfold user.addUser, user.bind, user.invoke. simpl.
    rewrite Hadd. rewrite <- app_assoc. simpl.
    destruct err; eexists; (split; [reflexivity|reflexivity]).
  - intros s' log' account s2 Hl'.
    unfold user.Check, user.bind at 1.
    rewrite (lookups_no_uid u s' log' _ s2 Huid Hl').
    rewrite Hst, Huid. reflexivity.
Qed.

End UserTask.

Lemma Check_absent_unknown_user_witness :
  user.Check (passwd.task "" "" "absent") (passwd.empty, [])
  = (user.Returned
       ({| resource.WarningLevel := resource.StatusFatal;
           resource.Output := ["user alice does not exist"];
           resource.WillChange := false;
           resource.Differences := ∅ |}, None),
     (passwd.empty, [user.CallLookup "alice"]))
  /\ user.Check (passwd.task "1001" "" "absent") (passwd.empty, [])
     = (user.Returned
          ({| resource.WarningLevel := resource.StatusNoChange;
              resource.Output := ["user name and uid do not exist"];
              resource.WillChange := false;
              resource.Differences := ∅ |}, None),
        (passwd.empty, [user.CallLookup "alice"; user.CallLookupID "1001"])).
Proof.
  split.
  - apply (Check_absent_unknown_user (passwd.task "" "" "absent") passwd.empty []
             None "alice" passwd.empty); reflexivity.
  - apply (Check_absent_unknown_user (passwd.task "1001" "" "absent") passwd.empty []
             None "alice" passwd.empty eq_refl eq_refl) with (byID := None) (uid := "1001");
      [discriminate | reflexivity].
Defined.

Lemma Check_Apply_present_unknown_user_witness :
  user.Check (passwd.task "" "" "present") (passwd.empty, [])
  = (user.Returned
       ({| resource.WarningLevel := resource.StatusWillChange;
           resource.Output := ["user does not exist"];
           resource.WillChange := true;
           resource.Differences :=
             {[ "user" := {| resource.Original := "absent";
                             resource.Current := "user alice" |} ]} |}, None),
     (passwd.empty, [user.CallLookup "alice"])).
Proof.
  apply (Check_Apply_present_unknown_user (passwd.task "" "" "present") passwd.empty []
           "alice" passwd.empty passwd.empty []).
  - reflexivity.
  - reflexivity.
  - reflexivity.
  - left. repeat split.
Defined.

(** C2 as stated fails in its last part: on a host without the account
    Check reports StatusWillChange with the one difference, Apply calls
    AddUser once and the account exists afterwards, and the Check that
    follows reports StatusFatal, not StatusNoChange. *)
Lemma present_Check_after_Apply_is_Fatal :
  let u := passwd.task "" "" "present" in
  exists st1 w1 st2 w2 st3 w3,
    user.Check u (passwd.empty, []) = (user.Returned (st1, None), w1)
    /\ resource.WarningLevel st1 = resource.StatusWillChange
    /\ resource.Diffs st1
       = {[ "user" := {| resource.Original := "absent"; resource.Current := "user alice" |} ]}
    /\ user.Apply u (fst w1, []) = (user.Returned (st2, None), w2)
    /\ length (user.addUserCalls (snd w2)) = 1
    /\ is_Some (passwd.byName "alice" (fst w2))
    /\ user.Check u (fst w2, []) = (user.Returned (st3, None), w3)
    /\ resource.WarningLevel st3 = resource.StatusFatal
    /\ resource.Output st3 = ["user alice already exists"]
    /\ resource.WarningLevel st3 <> resource.StatusNoChange.
Proof.
  simpl. do 6 eexists.
  split; [vm_compute; reflexivity|].
  split; [reflexivity|].
  split; [reflexivity|].
  split; [vm_compute; reflexivity|].
  split; [reflexivity|].
  split; [vm_compute; eauto|].
  split; [vm_compute; reflexivity|].
  split; [reflexivity|].
  split; [reflexivity|].
  discriminate.
Qed.

(* --------------------------------------------------------------------- *)
(** ** Dependency resolution: the ancestor walks                          *)
(* --------------------------------------------------------------------- *)

(** The body of getNearestAncestor, as an equation. *)
Lemma getNearestAncestor_unfold (g : graph.Graph) (id name : string) :
  load.getNearestAncestor g id name
  = if load.atTop id then None
    else match graph.Get g (graph.SiblingID id name) with
         | None => load.getNearestAncestor g (graph.ParentID id) name
         | Some valMeta =>
             match asParseNode (node.Value_of valMeta) with
             | None => None
             | Some _ => Some (graph.SiblingID id name)
             end
         end.
Proof.
  rewrite load.getNearestAncestor_equation_1.
  destruct (sumbool_of_bool _) as [E|E]; simpl; unfold load.atTop; rewrite E; reflexivity.
Qed.

(** The body of getPeerVertex, as an equation. *)
Lemma getPeerVertex_unfold (src dst : string) :
  load.getPeerVertex src dst
  = if String.eqb dst "." || graph.IsRoot dst then None
    else if graph.AreSiblingIDs src dst then Some dst
         else load.getPeerVertex src (graph.ParentID dst).
Proof.
  rewrite load.getPeerVertex_equation_1.
  destruct (sumbool_of_bool _) as [E|E]; simpl; rewrite E; reflexivity.
Qed.

(** The walk succeeds at the scope [k] steps up when no scope up to
    there is the top, no scope below has a sibling vertex of that name
    and the sibling vertex of scope [k] holds a parse node. *)
Lemma getNearestAncestor_hit (g : graph.Graph) (name : string) (k : nat) :
  forall id m p,
    (forall j, j <= k -> load.atTop (load.scope j id) = false) ->
    (forall j, j < k -> graph.Get g (graph.SiblingID (load.scope j id) name) = None) ->
    graph.Get g (graph.SiblingID (load.scope k id) name) = Some m ->
    asParseNode (node.Value_of m) = Some p ->
    load.getNearestAncestor g id name = Some (graph.SiblingID (load.scope k id) name).
Proof.
  induction k as [|k IH]; intros id m p Htop Hnone Hm Hp;
    rewrite getNearestAncestor_unfold;
    pose proof (Htop 0 ltac:(lia)) as Htop0; simpl in Htop0; rewrite Htop0.
  - simpl in Hm. by rewrite Hm, Hp.
  - pose proof (Hnone 0 ltac:(lia)) as Hnone0; simpl in Hnone0; rewrite Hnone0.
    apply (IH (graph.ParentID id) m p); auto.
    + intros j Hj. apply (Htop (S j)). lia.
    + intros j Hj. apply (Hnone (S j)). lia.
Qed.

Lemma getNearestAncestor_found (g : graph.Graph) (name : string) :
  forall id t,
    load.getNearestAncestor g id name = Some t ->
    exists k m p,
      (forall j, j <= k -> load.atTop (load.scope j id) = false)
      /\ (forall j, j < k -> graph.Get g (graph.SiblingID (load.scope j id) name) = None)
      /\ t = graph.SiblingID (load.scope k id) name
      /\ graph.Get g t = Some m
      /\ asParseNode (node.Value_of m) = Some p.
Proof.
  intros id. funelim (load.getNearestAncestor g id name); intros t Ht.
  - discriminate.
  - clear Heqcall Heq.
    assert (Htop : load.atTop id = false) by exact Hgo.
    destruct (graph.Get g (graph.SiblingID id name)) as [valMeta|] eqn:EG.
    + destruct (asParseNode (node.Value_of valMeta)) as [p|] eqn:EP; [|discriminate].
      injection Ht as <-. exists 0, valMeta, p. simpl. repeat split; auto.
      * intros j Hj. replace j with 0 by lia. exact Htop.
      * intros j Hj. lia.
    + destruct (H t Ht) as (k & m & p & Hk1 & Hk2 & Hk3 & Hk4 & Hk5).
      exists (S k), m, p. simpl. repeat split; auto.
      * intros [|j] Hj; simpl; [exact Htop | apply Hk1; lia].
      * intros [|j] Hj; simpl; [exact EG | apply Hk2; lia].
Qed.

(** C3, as the code has it.  getNearestAncestor probes
    SiblingID(scope, n) at scope = v and then at each ParentID(scope)
    until the top; it stops at the first scope whose sibling vertex
    exists, and succeeds, returning that vertex, exactly when the value
    of that vertex is a parse node. *)
Theorem getNearestAncestor_first_existing (g : graph.Graph) (v n t : string) :
  load.getNearestAncestor g v n = Some t
  <-> exists k m p,
        (forall j, j <= k -> load.atTop (load.scope j v) = false)
        /\ (forall j, j < k -> graph.Get g (graph.SiblingID (load.scope j v) n) = None)
        /\ t = graph.SiblingID (load.scope k v) n
        /\ graph.Get g t = Some m
        /\ asParseNode (node.Value_of m) = Some p.
Proof.
  split.
  - apply getNearestAncestor_found.
  - intros (k & m & p & H1 & H2 & -> & H4 & H5).
    by apply (getNearestAncestor_hit g n k v m p).
Qed.

(** C3 as stated fails: the scope one step up from [root/m/y] has the
    sibling vertex [root/x], whose value is a parse node, and the walk
    does not reach the top before it, yet the walk fails, because
    [root/m/x] exists and holds no parse node. *)
Lemma getNearestAncestor_stops_at_other_value :
  load.getNearestAncestor samples.shadowed "root/m/y" "x" = None
  /\ load.atTop (load.scope 0 "root/m/y") = false
  /\ load.atTop (load.scope 1 "root/m/y") = false
  /\ graph.SiblingID (load.scope 1 "root/m/y") "x" = "root/x"
  /\ (asParseNode ∘ node.Value_of <$> graph.Get samples.shadowed "root/x") = Some (Some (samples.block [] [] ""))
  /\ (asParseNode ∘ node.Value_of <$> graph.Get samples.shadowed "root/m/x") = Some None.
Proof. repeat split; vm_compute; reflexivity. Qed.

(** getPeerVertex returns the nearest of [dst] and its ancestors that is
    a sibling ID of [src], unless the walk meets "." or the root first. *)
Lemma getPeerVertex_first_sibling (src dst peer : string) :
  load.getPeerVertex src dst = Some peer
  <-> exists k,
        (forall j, j <= k ->
           String.eqb (load.scope j dst) "." || graph.IsRoot (load.scope j dst) = false)
        /\ (forall j, j < k -> graph.AreSiblingIDs src (load.scope j dst) = false)
        /\ peer = load.scope k dst
        /\ graph.AreSiblingIDs src peer = true.
Proof.
  split.
  - revert peer. funelim (load.getPeerVertex src dst); intros peer Hpeer; [discriminate|].
    clear Heqcall Heq.
    destruct (graph.AreSiblingIDs src dst) eqn:Hsib.
    + injection Hpeer as <-. exists 0. simpl. split_and!; auto.
      * intros j Hj. by replace j with 0 by lia.
      * intros j Hj. lia.
    + destruct (H peer Hpeer) as (k & Hk1 & Hk2 & Hk3 & Hk4).
      exists (S k). simpl. split_and!; auto.
      * intros [|j] Hj; simpl; [done | apply Hk1; lia].
      * intros [|j] Hj; simpl; [done | apply Hk2; lia].
  - intros (k & Htop & Hnot & -> & Hsib). revert dst Htop Hnot Hsib.
    induction k as [|k IH]; intros dst Htop Hnot Hsib;
      rewrite getPeerVertex_unfold;
      pose proof (Htop 0 ltac:(lia)) as Htop0; simpl in Htop0; rewrite Htop0.
    + simpl in Hsib. by rewrite Hsib.
    + pose proof (Hnot 0 ltac:(lia)) as Hnot0; simpl in Hnot0; rewrite Hnot0.
      apply IH; auto.
      * intros j Hj. apply (Htop (S j)). lia.
      * intros j Hj. apply (Hnot (S j)). lia.
Qed.

(* --------------------------------------------------------------------- *)
(** ** Dependency resolution: references that resolve to nothing          *)
(* --------------------------------------------------------------------- *)

(** The loop of getDepends fails at the first entry that resolves to no
    vertex, with an error that names that entry. *)
Lemma resolveDepends_fails (g : graph.Graph) (id : string) (deps : list string) (dep : string) :
  dep ∈ deps ->
  load.getNearestAncestor g id dep = None ->
  exists pre d post,
    deps = pre ++ d :: post
    /\ (forall x, x ∈ pre -> is_Some (load.getNearestAncestor g id x))
    /\ load.getNearestAncestor g id d = None
    /\ snd (load.resolveDepends g id deps)
       = Some (Errorf ("nonexistent vertices in edges: " +:+ d)).
Proof.
  induction deps as [|a deps IH]; intros Hin Hnone.
  - by apply elem_of_nil in Hin.
  - simpl. destruct (load.getNearestAncestor g id a) as [anc|] eqn:Ea.
    + apply elem_of_cons in Hin as [-> | Hin]; [congruence|].
      destruct (IH Hin Hnone) as (pre & d & post & -> & Hpre & Hd & Herr).
      exists (a :: pre), d, post. repeat split; auto.
      * intros x Hx. apply elem_of_cons in Hx as [-> | Hx]; [by rewrite Ea | auto].
      * destruct (load.resolveDepends g id (pre ++ d :: post)). exact Herr.
    + exists [], a, deps. repeat split; auto.
      intros x Hx. by apply elem_of_nil in Hx.
Qed.

(** So does the second loop of getParams, on the name of the parameter. *)
Lemma resolveParams_fails (g : graph.Graph) (id : string) (names : list string) (N : string) :
  N ∈ names ->
  load.getNearestAncestor g id ("param." +:+ N) = None ->
  exists pre N' post,
    names = pre ++ N' :: post
    /\ (forall x, x ∈ pre -> is_Some (load.getNearestAncestor g id ("param." +:+ x)))
    /\ load.getNearestAncestor g id ("param." +:+ N') = None
    /\ snd (load.resolveParams g id names)
       = Some (Errorf ("unknown parameter: param." +:+ N')).
Proof.
  induction names as [|a names IH]; intros Hin Hnone.
  - by apply elem_of_nil in Hin.
  - simpl. destruct (load.getNearestAncestor g id ("param." +:+ a)) as [anc|] eqn:Ea.
    + apply elem_of_cons in Hin as [-> | Hin]; [congruence|].
      destruct (IH Hin Hnone) as (pre & d & post & -> & Hpre & Hd & Herr).
      exists (a :: pre), d, post. repeat split; auto.
      * intros x Hx. apply elem_of_cons in Hx as [-> | Hx]; [by rewrite Ea | auto].
      * destruct (load.resolveParams g id (pre ++ d :: post)). exact Herr.
    + exists [], a, names. repeat split; auto.
      intros x Hx. by apply elem_of_nil in Hx.
Qed.

Section Transform.
Context {St : Type} (cb : node.Node -> graph.Graph * St -> (graph.Graph * St) * option error).

(** Once a callback has failed, the Transform reports an error. *)
Lemma foldl_visit_sticky (nodes : list node.Node) acc :
  snd acc <> None -> snd (foldl (graph.visit cb) acc nodes) <> None.
Proof.
  revert acc. induction nodes as [|meta nodes IH]; intros acc Hacc; [done|].
  simpl. apply IH. unfold graph.visit.
  destruct (cb meta (fst acc)) as [st' [e|]]; simpl; [|done].
  unfold graph.lowest. destruct (snd acc) as [[id0 e0]|]; [|done].
  by destruct (String.ltb (node.ID meta) id0).
Qed.

Lemma foldl_visit_fails (nodes : list node.Node) acc (meta : node.Node) :
  meta ∈ nodes ->
  (forall st, snd (cb meta st) <> None) ->
  snd (foldl (graph.visit cb) acc nodes) <> None.
Proof.
  revert acc. induction nodes as [|a nodes IH]; intros acc Hin Hcb.
  - by apply elem_of_nil in Hin.
  - simpl. apply elem_of_cons in Hin as [<- | Hin]; [|by apply IH].
    apply foldl_visit_sticky. unfold graph.visit.
    specialize (Hcb (fst acc)).
    destruct (cb meta (fst acc)) as [st' [e|]]; simpl in *; [|done].
    unfold graph.lowest. destruct (snd acc) as [[id0 e0]|]; [|done].
    by destruct (String.ltb (node.ID meta) id0).
Qed.

(** A Transform whose callback fails at a vertex that it visits
    returns an error. *)
Lemma Transform_fails (order : list string) (g : graph.Graph) (st : St)
    (id : string) (meta : node.Node) :
  id ∈ order ->
  graph.Get g id = Some meta ->
  (forall st', snd (cb meta st') <> None) ->
  snd (graph.Transform cb order g st) <> None.
Proof.
  intros Hin Hget Hcb. unfold graph.Transform.
  assert (Hmeta : meta ∈ omap (graph.Get g) order).
  { apply list_elem_of_omap. eauto. }
  pose proof (foldl_visit_fails _ ((g, st), None) meta Hmeta Hcb) as Hf.
  destruct (foldl _ _ _) as [res [first|]]; simpl in *; [done|congruence].
Qed.
End Transform.

Section Resolver.
Variable paramCalls : string -> load.parsed.
Variable refCalls : string -> load.parsed.
Variable VertexSplitTraverse : graph.Graph -> string -> string -> option string.

Abbreviation getParams := (load.getParams paramCalls).
Abbreviation getXrefs := (load.getXrefs refCalls VertexSplitTraverse).
Abbreviation resolveVertex := (load.resolveVertex paramCalls refCalls VertexSplitTraverse).
Abbreviation ResolveDependencies :=
  (load.ResolveDependencies paramCalls refCalls VertexSplitTraverse).

(** The error that Transform returns is the one that
    ResolveDependencies returns. *)
Lemma ResolveDependencies_error (order : list string) (g : graph.Graph) :
  snd (ResolveDependencies order g)
  = snd (graph.Transform (resolveVertex g) order g ∅).
Proof.
  unfold load.ResolveDependencies.
  by destruct (graph.Transform _ _ _ _) as [[g' groupMap] err].
Qed.

(** The callback fails, whatever it is handed, at a vertex one of
    whose generators fails. *)
Lemma resolveVertex_fails (g : graph.Graph) (meta : node.Node) (node : parse.Node) st :
  graph.IsRoot (node.ID meta) = false ->
  asParseNode (node.Value_of meta) = Some node ->
  snd (load.getDepends g (node.ID meta) node) <> None
  \/ snd (getParams g (node.ID meta) node) <> None
  \/ snd (getXrefs g (node.ID meta) node) <> None ->
  snd (resolveVertex g meta st) <> None.
Proof.
  intros Hroot Hnode Hgen. destruct st as [out groupMap].
  unfold load.resolveVertex. rewrite Hroot, Hnode.
  unfold load.depGenerators. simpl.
  destruct (load.getDepends g (node.ID meta) node) as [d1 [e1|]]; [done|].
  destruct (getParams g (node.ID meta) node) as [d2 [e2|]]; [done|].
  destruct (getXrefs g (node.ID meta) node) as [d3 [e3|]]; [done|].
  simpl in Hgen. by destruct Hgen as [?|[?|?]].
Qed.

(** C5, as the code has it.  A depends entry that resolves to no
    ancestor vertex makes getDepends return no edge and an error
    "nonexistent vertices in edges: D", and a recorded parameter name
    with no ancestor vertex param.N makes getParams return an error
    "unknown parameter: param.N'" and leaves the graph as it was; D
    and N' are the first such entry and the first such name.  A vertex
    of the graph at which either happens makes ResolveDependencies
    return an error. *)
Theorem unresolvable_reference_fails (g : graph.Graph) (id : string) (node : parse.Node) :
  (forall deps dep,
      parse.GetStringSlice_depends node = (deps, None) ->
      dep ∈ deps ->
      load.getNearestAncestor g id dep = None ->
      exists pre d post,
        deps = pre ++ d :: post
        /\ (forall x, x ∈ pre -> is_Some (load.getNearestAncestor g id x))
        /\ load.getNearestAncestor g id d = None
        /\ load.getDepends g id node
           = ([], Some (Errorf ("nonexistent vertices in edges: " +:+ d)))
        /\ Contains ("nonexistent vertices in edges: " +:+ d)
                    "nonexistent vertices in edges" = true)
  /\ (forall strs names N,
      parse.GetStrings node = (strs, None) ->
      load.recordCalls paramCalls strs [] = (names, None) ->
      N ∈ names ->
      load.getNearestAncestor g id ("param." +:+ N) = None ->
      exists pre N' post,
        names = pre ++ N' :: post
        /\ (forall x, x ∈ pre -> is_Some (load.getNearestAncestor g id ("param." +:+ x)))
        /\ load.getNearestAncestor g id ("param." +:+ N') = None
        /\ snd (getParams g id node) = Some (Errorf ("unknown parameter: param." +:+ N'))
        /\ forall out,
             load.runGenerators [getParams] g id node out
             = (out, Some (Errorf ("unknown parameter: param." +:+ N'))))
  /\ (forall meta order,
      graph.Get g id = Some meta ->
      node.ID meta = id ->
      graph.IsRoot id = false ->
      asParseNode (node.Value_of meta) = Some node ->
      id ∈ order ->
      snd (load.getDepends g id node) <> None \/ snd (getParams g id node) <> None ->
      snd (ResolveDependencies order g) <> None).
Proof.
  split; [|split].
  - intros deps dep Hdeps Hin Hnone.
    destruct (resolveDepends_fails g id deps dep Hin Hnone)
      as (pre & d & post & Hsplit & Hpre & Hd & Herr).
    exists pre, d, post. split_and!; [done..| |reflexivity].
    unfold load.getDepends. rewrite Hdeps.
    destruct (load.resolveDepends g id deps) as [deps' err]. simpl in Herr.
    by rewrite Herr.
  - intros strs names N Hstrs Hrec Hin Hnone.
    destruct (resolveParams_fails g id names N Hin Hnone)
      as (pre & N' & post & Hsplit & Hpre & HN' & Herr).
    exists pre, N', post.
    assert (Hget : snd (getParams g id node)
                   = Some (Errorf ("unknown parameter: param." +:+ N'))).
    { unfold load.getParams. rewrite Hstrs, Hrec. exact Herr. }
    repeat split; auto.
    intros out. simpl. destruct (getParams g id node) as [ds e]. simpl in Hget.
    by rewrite Hget.
  - intros meta order Hget Hid Hroot Hnode Hin Hgen.
    rewrite ResolveDependencies_error.
    apply (Transform_fails _ order g ∅ id meta Hin Hget).
    intros st'. apply (resolveVertex_fails g meta node st').
    + by rewrite Hid.
    + exact Hnode.
    + rewrite Hid. tauto.
Qed.

End Resolver.

Lemma unresolvable_reference_fails_witness :
  (exists d, load.getDepends samples.dangling "root/task.install-jq"
               (samples.block ["install-build-essential"] [] "")
             = ([], Some (Errorf ("nonexistent vertices in edges: " +:+ d))))
  /\ snd (samples.ResolveDependencies ["root"; "root/task.install-jq"] samples.dangling) <> None.
Proof.
  pose proof (unresolvable_reference_fails samples.paramCalls samples.refCalls
                samples.VertexSplitTraverse samples.dangling "root/task.install-jq"
                (samples.block ["install-build-essential"] [] "")) as (Hdep & _ & Hload).
  split.
  - destruct (Hdep ["install-build-essential"] "install-build-essential")
      as (pre & d & post & _ & _ & _ & Heq & _).
    + reflexivity.
    + apply list_elem_of_singleton. reflexivity.
    + vm_compute. reflexivity.
    + exists d. exact Heq.
  - apply (Hload (node.New "root/task.install-jq"
                    (VParse (samples.block ["install-build-essential"] [] "")))).
    + vm_compute. reflexivity.
    + reflexivity.
    + reflexivity.
    + reflexivity.
    + apply elem_of_cons. right. apply list_elem_of_singleton. reflexivity.
    + left. vm_compute. discriminate.
Defined.

(** C5 as stated fails for a second unknown parameter: [root/task.x]
    records the names a and b, neither has a vertex param.a or param.b
    above it, and the error names param.a only. *)
Lemma getParams_names_first_unknown_only :
  load.recordCalls samples.paramCalls ["{{param `a`}}-{{param `b`}}"] [] = (["a"; "b"], None)
  /\ load.getNearestAncestor samples.undeclared "root/task.x" "param.b" = None
  /\ load.getParams samples.paramCalls samples.undeclared "root/task.x"
       (samples.block [] ["{{param `a`}}-{{param `b`}}"] "")
     = (["a"; "b"], Some (Errorf "unknown parameter: param.a"))
  /\ Contains "unknown parameter: param.a" "unknown parameter: param.b" = false.
Proof. repeat split; vm_compute; reflexivity. Qed.

(** A string that does not parse as a template ends getParams before
    any recorded name is resolved: the error is that of the parser. *)
Example getParams_template_error :
  load.getParams samples.paramCalls samples.undeclared "root/task.x"
    (samples.block [] ["{{param `a`}}-{{param `b`}}"; "{{param"] "")
  = (["a"; "b"], Some (Errorf "template: unclosed action")).
Proof. vm_compute. reflexivity. Qed.

(* --------------------------------------------------------------------- *)
(** ** Dependency resolution: a Transform that succeeds                   *)
(* --------------------------------------------------------------------- *)

Lemma connectDeps_edges (out : graph.Graph) (id : string) (deps : list string) e :
  e ∈ graph.edges (load.connectDeps out id deps)
  <-> e ∈ graph.edges out \/ exists d, d ∈ deps /\ e = (id, d).
Proof.
  unfold load.connectDeps. revert out.
  induction deps as [|a deps IH]; intros out; simpl.
  - split; [auto|]. intros [H | (d & Hd & _)]; [done|]. by apply elem_of_nil in Hd.
  - rewrite IH. simpl. rewrite elem_of_union, elem_of_singleton. split.
    + intros [[-> | H] | (d & Hd & ->)]; eauto.
      * right. exists a. split; [left|done].
      * right. exists d. split; [by right|done].
    + intros [H | (d & Hd & ->)]; [auto|].
      apply elem_of_cons in Hd as [-> | Hd]; eauto.
Qed.

Section ResolverSucceeds.
Variable paramCalls : string -> load.parsed.
Variable refCalls : string -> load.parsed.
Variable VertexSplitTraverse : graph.Graph -> string -> string -> option string.

Abbreviation getParams' := (load.getParams paramCalls).
Abbreviation getXrefs' := (load.getXrefs refCalls VertexSplitTraverse).
Abbreviation resolveVertex' := (load.resolveVertex paramCalls refCalls VertexSplitTraverse).
Abbreviation ResolveDependencies' :=
  (load.ResolveDependencies paramCalls refCalls VertexSplitTraverse).

Abbreviation resolved := (load.resolved paramCalls refCalls VertexSplitTraverse).

Lemma resolved_mono g meta out out' :
  graph.edges out ⊆ graph.edges out' -> resolved g meta out -> resolved g meta out'.
Proof.
  intros Hsub (node & d1 & d2 & d3 & H1 & H2 & H3 & H4 & H5).
  exists node, d1, d2, d3. repeat split; auto.
Qed.

Lemma resolveVertex_ok g meta out groupMap out' groupMap' :
  resolveVertex' g meta (out, groupMap) = ((out', groupMap'), None) ->
  graph.edges out ⊆ graph.edges out'
  /\ groupMap' = load.recordGroup groupMap meta
  /\ (graph.IsRoot (node.ID meta) = false -> resolved g meta out').
Proof.
  unfold load.resolveVertex, load.recordGroup, load.reportedGroup, load.resolved.
  destruct (graph.IsRoot (node.ID meta)) eqn:Hroot.
  { intros [= <- <-]. repeat split; [done | discriminate]. }
  destruct (asParseNode (node.Value_of meta)) as [node|]; [|discriminate].
  unfold load.depGenerators. simpl.
  destruct (load.getDepends g (node.ID meta) node) as [d1 [e1|]] eqn:E1; [discriminate|].
  destruct (getParams' g (node.ID meta) node) as [d2 [e2|]] eqn:E2; [discriminate|].
  destruct (getXrefs' g (node.ID meta) node) as [d3 [e3|]] eqn:E3; [discriminate|].
  set (final := load.connectDeps _ _ d3).
  assert (Hedges : forall e, e ∈ graph.edges final
            <-> e ∈ graph.edges out \/ exists d, d ∈ d1 ++ d2 ++ d3 /\ e = (node.ID meta, d)).
  { intros e. unfold final. rewrite !connectDeps_edges. split.
    - intros [[[H | (d & Hd & ->)] | (d & Hd & ->)] | (d & Hd & ->)]; auto;
        right; exists d; (split; [|done]); rewrite !elem_of_app; auto.
    - intros [H | (d & Hd & ->)]; auto.
      rewrite !elem_of_app in Hd. destruct Hd as [Hd | [Hd | Hd]]; eauto 6. }
  destruct (load.groupName node) as [group [e|]]; [discriminate|].
  destruct (String.eqb group "") eqn:Hgroup; intros [= <- <-].
  - split; [|split].
    + apply elem_of_subseteq. intros e He. apply Hedges. auto.
    + reflexivity.
    + intros _. exists node, d1, d2, d3. split_and!; auto.
      intros d Hd. apply Hedges. eauto.
  - split; [|split].
    + apply elem_of_subseteq. intros e He. apply Hedges. auto.
    + reflexivity.
    + intros _. exists node, d1, d2, d3. split_and!; auto.
      intros d Hd. apply Hedges. eauto.
Qed.

(** The state in which a Transform that reports no error ends. *)
Lemma foldl_visit_ok g (nodes : list node.Node) :
  forall out groupMap out' groupMap',
    foldl (graph.visit (resolveVertex' g)) ((out, groupMap), None) nodes
    = ((out', groupMap'), None) ->
    graph.edges out ⊆ graph.edges out'
    /\ groupMap' = foldl load.recordGroup groupMap nodes
    /\ forall meta, meta ∈ nodes -> graph.IsRoot (node.ID meta) = false ->
                    resolved g meta out'.
Proof.
  induction nodes as [|meta nodes IH]; intros out groupMap out' groupMap' Hrun.
  - injection Hrun as <- <-. split_and!; [done..|].
    intros meta Hin. by apply elem_of_nil in Hin.
  - change (foldl ?f ?a (meta :: nodes)) with (foldl f (f a meta) nodes) in Hrun.
    unfold graph.visit at 2 in Hrun. cbn [fst snd] in Hrun.
    destruct (resolveVertex' g meta (out, groupMap)) as [[out1 groupMap1] [e|]] eqn:Hcb.
    { exfalso.
      eapply (foldl_visit_sticky (resolveVertex' g) nodes); [|by rewrite Hrun]. done. }
    apply resolveVertex_ok in Hcb as (Hsub1 & -> & Hres1).
    apply IH in Hrun as (Hsub & -> & Hres).
    split_and!; [by etrans|done|].
    intros meta' Hin Hroot. apply elem_of_cons in Hin as [-> | Hin]; [|by apply Hres].
    apply (resolved_mono g meta out1); auto.
Qed.

(** The graph and the group map with which a Transform that reports no
    error hands over to the grouping pass. *)
Lemma Transform_ok (order : list string) g out' groupMap' :
  graph.Transform (resolveVertex' g) order g ∅ = ((out', groupMap'), None) ->
  graph.edges g ⊆ graph.edges out'
  /\ groupMap' = foldl load.recordGroup ∅ (omap (graph.Get g) order)
  /\ forall id meta, id ∈ order -> graph.Get g id = Some meta ->
                     graph.IsRoot (node.ID meta) = false -> resolved g meta out'.
Proof.
  unfold graph.Transform.
  destruct (foldl _ _ _) as [[out1 groupMap1] [first|]] eqn:Hrun; [discriminate|].
  intros [= <- <-]. apply foldl_visit_ok in Hrun as (Hsub & Hgm & Hres).
  repeat split; auto.
  intros id meta Hin Hget. apply Hres. apply list_elem_of_omap. eauto.
Qed.

End ResolverSucceeds.

(* --------------------------------------------------------------------- *)
(** ** Dependency resolution: cross-references                            *)
(* --------------------------------------------------------------------- *)

Section CrossReferences.
Variable paramCalls : string -> load.parsed.
Variable refCalls : string -> load.parsed.
Variable VertexSplitTraverse : graph.Graph -> string -> string -> option string.

Abbreviation resolveXrefs := (load.resolveXrefs VertexSplitTraverse).

(** The second loop of getXrefs, when it returns without error: every
    call has resolved, and its target and the peer of the target are
    among the dependencies returned. *)
Lemma resolveXrefs_ok (g : graph.Graph) (id : string) (calls : list string) :
  forall nodeRefs out out',
    (forall t, t ∈ nodeRefs ->
       t ∈ out /\ forall peer, load.getPeerVertex id t = Some peer -> peer ∈ out) ->
    resolveXrefs g id calls nodeRefs out = (out', None) ->
    (forall x, x ∈ out -> x ∈ out')
    /\ forall call, call ∈ calls ->
         exists t, VertexSplitTraverse g call id = Some t
                   /\ t ∈ out'
                   /\ forall peer, load.getPeerVertex id t = Some peer -> peer ∈ out'.
Proof.
  induction calls as [|call calls IH]; intros nodeRefs out out' Hinv Hrun; simpl in Hrun.
  - injection Hrun as <-. split; [done|]. intros call Hin. by apply elem_of_nil in Hin.
  - destruct (VertexSplitTraverse g call id) as [vertex|] eqn:Hv; [|discriminate].
    destruct (decide (vertex ∈ nodeRefs)) as [Hseen | Hnew].
    + destruct (IH _ _ _ Hinv Hrun) as (Hsub & Hcalls). split; [done|].
      intros c Hc. apply elem_of_cons in Hc as [-> | Hc]; [|by apply Hcalls].
      exists vertex. destruct (Hinv vertex Hseen) as (Hin & Hpeer).
      split_and!; [done|by apply Hsub|]. intros peer Hp. apply Hsub. by apply Hpeer.
    + set (out2 := match load.getPeerVertex id vertex with
                   | Some peerVertex => (out ++ [vertex]) ++ [peerVertex]
                   | None => out ++ [vertex]
                   end) in *.
      assert (Hout : forall x, x ∈ out -> x ∈ out2).
      { intros x Hx. unfold out2. destruct (load.getPeerVertex id vertex);
          rewrite ?elem_of_app; auto. }
      assert (Hvertex : vertex ∈ out2
                /\ forall peer, load.getPeerVertex id vertex = Some peer -> peer ∈ out2).
      { unfold out2. destruct (load.getPeerVertex id vertex) as [p|].
        - split.
          + rewrite !elem_of_app, !list_elem_of_singleton. auto.
          + intros peer [= <-]. rewrite !elem_of_app, !list_elem_of_singleton. auto.
        - split; [|discriminate]. rewrite !elem_of_app, !list_elem_of_singleton. auto. }
      assert (Hinv2 : forall t, t ∈ ({[vertex]} ∪ nodeRefs : gset string) ->
                t ∈ out2 /\ forall peer, load.getPeerVertex id t = Some peer -> peer ∈ out2).
      { intros t Ht. apply elem_of_union in Ht as [Ht | Ht].
        - apply elem_of_singleton in Ht as ->. exact Hvertex.
        - destruct (Hinv t Ht) as (H1 & H2). split; [by apply Hout|].
          intros peer Hp. apply Hout. by apply H2. }
      destruct (IH _ _ _ Hinv2 Hrun) as (Hsub & Hcalls). split; [by auto|].
      intros c Hc. apply elem_of_cons in Hc as [-> | Hc]; [|by apply Hcalls].
      exists vertex. destruct Hvertex as (Hin & Hpeer).
      split_and!; [done|by apply Hsub|]. intros peer Hp. apply Hsub. by apply Hpeer.
Qed.


End CrossReferences.

(* --------------------------------------------------------------------- *)
(** ** Dependency resolution: the grouping pass                           *)
(* --------------------------------------------------------------------- *)

Lemma connectGroup_mono (ids : list string) :
  forall g, graph.edges g ⊆ graph.edges (load.connectGroup ids g).
Proof.
  induction ids as [|prev rest IH]; intros g; [done|].
  destruct rest as [|cur rest]; [done|].
  change (load.connectGroup (prev :: cur :: rest) g)
    with (let '(from, to) := load.groupEdge cur prev in
          load.connectGroup (cur :: rest) (graph.Connect g from to)).
  destruct (load.groupEdge cur prev) as [from to].
  etrans; [|apply IH]. simpl. set_solver.
Qed.

(** Every adjacent pair of the list gets its edge. *)
Lemma connectGroup_adjacent (ids : list string) :
  forall g i prev cur,
    ids !! i = Some prev -> ids !! S i = Some cur ->
    load.groupEdge cur prev ∈ graph.edges (load.connectGroup ids g).
Proof.
  induction ids as [|a rest IH]; intros g i prev cur Hprev Hcur; [done|].
  destruct rest as [|b rest]; [done|].
  change (load.connectGroup (a :: b :: rest) g)
    with (let '(from, to) := load.groupEdge b a in
          load.connectGroup (b :: rest) (graph.Connect g from to)).
  destruct i as [|i].
  - simpl in Hprev, Hcur. injection Hprev as ->. injection Hcur as ->.
    destruct (load.groupEdge cur prev) as [from to] eqn:He.
    apply (connectGroup_mono (cur :: rest)). simpl. set_solver.
  - destruct (load.groupEdge b a) as [from to]. by apply (IH _ i).
Qed.

Lemma connectGroups_mono (groupMap : gmap string (list string)) (g : graph.Graph) :
  graph.edges g ⊆ graph.edges (load.connectGroups groupMap g).
Proof.
  unfold load.connectGroups.
  induction (map_to_list groupMap) as [|entry l IH]; simpl; [done|].
  etrans; [exact IH|]. apply connectGroup_mono.
Qed.

(** Every adjacent pair of every group, once sorted, gets its edge. *)
Lemma connectGroups_adjacent (groupMap : gmap string (list string)) (g : graph.Graph)
    (group : string) (ids : list string) i prev cur :
  groupMap !! group = Some ids ->
  sort_Strings ids !! i = Some prev ->
  sort_Strings ids !! S i = Some cur ->
  load.groupEdge cur prev ∈ graph.edges (load.connectGroups groupMap g).
Proof.
  intros Hgroup Hprev Hcur. apply elem_of_map_to_list in Hgroup.
  unfold load.connectGroups.
  induction (map_to_list groupMap) as [|entry l IH]; simpl.
  - by apply elem_of_nil in Hgroup.
  - apply elem_of_cons in Hgroup as [<- | Hin].
    + simpl. by apply (connectGroup_adjacent _ _ i).
    + apply (connectGroup_mono (sort_Strings entry.2)). by apply IH.
Qed.


Section CrossReferencesConnected.
Variable paramCalls : string -> load.parsed.
Variable refCalls : string -> load.parsed.
Variable VertexSplitTraverse : graph.Graph -> string -> string -> option string.

Abbreviation ResolveDependencies'' :=
  (load.ResolveDependencies paramCalls refCalls VertexSplitTraverse).

(** The graph that a resolution without error returns holds the edges
    of the Transform and its vertices are resolved. *)
Lemma ResolveDependencies_ok (order : list string) (g g' : graph.Graph) :
  ResolveDependencies'' order g = (g', None) ->
  exists out groupMap,
    g' = load.connectGroups groupMap out
    /\ graph.edges out ⊆ graph.edges g'
    /\ groupMap = foldl load.recordGroup ∅ (omap (graph.Get g) order)
    /\ forall id meta, id ∈ order -> graph.Get g id = Some meta ->
         graph.IsRoot (node.ID meta) = false ->
         load.resolved paramCalls refCalls VertexSplitTraverse g meta out.
Proof.
  unfold load.ResolveDependencies.
  destruct (graph.Transform _ _ _ _) as [[out groupMap] err] eqn:Hrun.
  intros [= <- ->]. apply Transform_ok in Hrun as (_ & Hgm & Hres).
  exists out, groupMap. split_and!; auto. apply connectGroups_mono.
Qed.


End CrossReferencesConnected.



(* --------------------------------------------------------------------- *)
(** ** Sorting strings                                                    *)
(* --------------------------------------------------------------------- *)

Abbreviation le_string := (fun a b : string => String.leb a b = true).
Abbreviation lt_string := (fun a b : string => String.ltb a b = true).

Lemma String_compare_refl (a : string) : String.compare a a = Eq.
Proof. by apply OrderedTypeEx.String_as_OT.cmp_eq. Qed.

Lemma String_leb_ltb (a b : string) :
  String.leb a b = true <-> String.ltb a b = true \/ a = b.
Proof.
  unfold String.leb, String.ltb. destruct (String.compare a b) eqn:E.
  - apply String.compare_eq_iff in E. tauto.
  - tauto.
  - split; [discriminate|]. intros [? | ->]; [done|].
    by rewrite String_compare_refl in E.
Qed.

Lemma String_ltb_irrefl (a : string) : String.ltb a a = false.
Proof. unfold String.ltb. by rewrite String_compare_refl. Qed.

#[local] Instance String_ltb_trans : Transitive lt_string.
Proof.
  intros a b c. unfold String.ltb.
  destruct (String.compare a b) eqn:E1; try discriminate.
  destruct (String.compare b c) eqn:E2; try discriminate.
  intros _ _.
  apply OrderedTypeEx.String_as_OT.cmp_lt in E1, E2.
  pose proof (OrderedTypeEx.String_as_OT.lt_trans _ _ _ E1 E2) as E3.
  apply OrderedTypeEx.String_as_OT.cmp_lt in E3.
  unfold OrderedTypeEx.String_as_OT.cmp in E3. by rewrite E3.
Qed.

#[local] Instance String_leb_trans : Transitive le_string.
Proof.
  intros a b c Hab Hbc. apply String_leb_ltb in Hab, Hbc. apply String_leb_ltb.
  destruct Hab as [Hab | ->], Hbc as [Hbc | ->]; auto.
  left. by apply (String_ltb_trans a b c).
Qed.

#[local] Instance String_leb_antisym : AntiSymm eq le_string.
Proof. intros a b. apply String.leb_antisym. Qed.

Lemma insertString_Permutation (s : string) (l : list string) :
  insertString s l ≡ₚ s :: l.
Proof.
  induction l as [|x l IH]; simpl; [done|].
  destruct (String.leb s x); [done|]. rewrite IH. apply Permutation_swap.
Qed.

Lemma sort_Strings_Permutation (l : list string) : sort_Strings l ≡ₚ l.
Proof.
  induction l as [|x l IH]; simpl; [done|].
  change (sort_Strings (x :: l)) with (insertString x (sort_Strings l)).
  by rewrite insertString_Permutation, IH.
Qed.

Lemma insertString_Sorted (s : string) (l : list string) :
  Sorted le_string l -> Sorted le_string (insertString s l).
Proof.
  induction l as [|x l IH]; intros Hl; simpl.
  - repeat constructor.
  - destruct (String.leb s x) eqn:E.
    + constructor; [done|]. by constructor.
    + apply Sorted_inv in Hl as (Hl & Hx). constructor; [by apply IH|].
      assert (Hxs : String.leb x s = true).
      { destruct (String.leb_total s x) as [H|H]; [congruence|done]. }
      destruct l as [|y l]; simpl.
      * by constructor.
      * destruct (String.leb s y); constructor; [done|].
        by apply HdRel_inv in Hx.
Qed.

Lemma sort_Strings_Sorted (l : list string) : Sorted le_string (sort_Strings l).
Proof.
  induction l as [|x l IH]; [constructor|].
  change (sort_Strings (x :: l)) with (insertString x (sort_Strings l)).
  by apply insertString_Sorted.
Qed.

(** A strictly ascending list is ascending and has no duplicates. *)
Lemma ascending_Sorted_leb (l : list string) : Sorted lt_string l -> Sorted le_string l.
Proof.
  induction 1 as [|x l Hl IH Hx]; constructor; [done|].
  destruct Hx; constructor. apply String_leb_ltb. by left.
Qed.

Lemma ascending_NoDup (l : list string) : Sorted lt_string l -> NoDup l.
Proof.
  intros Hl. apply (Sorted_StronglySorted _) in Hl.
  induction Hl as [|x l Hl IH Hx]; constructor; [|done].
  intros Hin. rewrite Forall_forall in Hx. specialize (Hx x Hin).
  by rewrite String_ltb_irrefl in Hx.
Qed.

(** sort.Strings of a list without duplicates is the strictly ascending
    list of its elements. *)
Lemma sort_Strings_ascending (ids ms : list string) :
  NoDup ids -> Sorted lt_string ms -> (forall v, v ∈ ms <-> v ∈ ids) -> sort_Strings ids = ms.
Proof.
  intros Hids Hms Hsame.
  apply (Sorted_unique le_string).
  - apply sort_Strings_Sorted.
  - by apply ascending_Sorted_leb.
  - rewrite sort_Strings_Permutation. apply NoDup_Permutation; [done| |].
    + by apply ascending_NoDup.
    + intros v. by rewrite Hsame.
Qed.

(* --------------------------------------------------------------------- *)
(** ** Dependency resolution: group serialization                         *)
(* --------------------------------------------------------------------- *)

(** The members that the callbacks have appended to a group, in the
    order of their visits. *)
Lemma foldl_recordGroup_lookup (nodes : list node.Node) :
  forall (groupMap : gmap string (list string)) (group : string),
    foldl load.recordGroup groupMap nodes !! group
    = match node.ID <$> filter (fun m => load.reportedGroup m = Some group) nodes with
      | [] => groupMap !! group
      | ids => Some (default [] (groupMap !! group) ++ ids)
      end.
Proof.
  induction nodes as [|meta nodes IH]; intros groupMap group; [done|].
  change (foldl load.recordGroup groupMap (meta :: nodes))
    with (foldl load.recordGroup (load.recordGroup groupMap meta) nodes).
  rewrite IH, filter_cons. unfold load.recordGroup.
  destruct (load.reportedGroup meta) as [grp|] eqn:Hgrp.
  - destruct (decide (Some grp = Some group)) as [[= ->] | Hne].
    + rewrite lookup_insert_eq, fmap_cons.
      destruct (node.ID <$> filter _ nodes) as [|id ids]; simpl; [done|].
      by rewrite <- app_assoc.
    + rewrite lookup_insert_ne by congruence. done.
  - destruct (decide (None = Some group)); [discriminate|done].
Qed.

Section Members.
Variables (g : graph.Graph) (order : list string).
Hypothesis keyed : forall k meta, graph.Get g k = Some meta -> node.ID meta = k.
Hypothesis distinct : NoDup order.
Hypothesis covered : forall k, is_Some (graph.Get g k) -> k ∈ order.

Lemma visited_NoDup : NoDup (node.ID <$> omap (graph.Get g) order).
Proof using keyed distinct.
  clear covered. induction order as [|k l IH]; [constructor|].
  apply NoDup_cons in distinct as (Hk & Hl). simpl.
  destruct (graph.Get g k) as [meta|] eqn:Hget; [|by apply IH].
  simpl. constructor; [|by apply IH].
  rewrite (keyed k meta Hget). intros Hin.
  apply list_elem_of_fmap in Hin as (m & Hm & Hin).
  apply list_elem_of_omap in Hin as (k' & Hk' & Hget').
  apply keyed in Hget'. congruence.
Qed.

(** The list of a group in the map that Transform hands over has no
    duplicates and holds the vertices that report the group. *)
Lemma members_spec (group : string) :
  let ids := node.ID <$> filter (fun m => load.reportedGroup m = Some group)
                                (omap (graph.Get g) order) in
  NoDup ids
  /\ forall v, v ∈ ids
       <-> exists meta, graph.Get g v = Some meta /\ load.reportedGroup meta = Some group.
Proof using keyed distinct covered.
  split.
  - eapply sublist_NoDup; [apply visited_NoDup|].
    apply fmap_sublist, sublist_filter.
  - intros v. rewrite list_elem_of_fmap. split.
    + intros (meta & -> & Hin). apply list_elem_of_filter in Hin as (Hgrp & Hin).
      apply list_elem_of_omap in Hin as (k & Hk & Hget).
      exists meta. split; [|done]. by rewrite (keyed k meta Hget).
    + intros (meta & Hget & Hgrp). exists meta. split; [by rewrite (keyed v meta Hget)|].
      apply list_elem_of_filter. split; [done|].
      apply list_elem_of_omap. exists v. split; [|done]. apply covered. by exists meta.
Qed.
End Members.

Section GroupSerialization.
Variable paramCalls : string -> load.parsed.
Variable refCalls : string -> load.parsed.
Variable VertexSplitTraverse : graph.Graph -> string -> string -> option string.

(** C1, as the code has it.  After a resolution without error, let
    m1 < m2 < ... < mk be the IDs of the vertices that report the
    group [group], in ascending order.  For every adjacent pair the
    final graph has the edge from m_{i+1} to m_i when the two are
    sibling IDs, and with it a directed path from m_{i+1} to m_i;
    otherwise it has that edge with each endpoint replaced by its
    parent, unless that parent is the root. *)
Theorem group_members_serialized (order : list string) (g g' : graph.Graph)
    (group : string) (ms : list string) (i : nat) (prev cur : string) :
  (forall k meta, graph.Get g k = Some meta -> node.ID meta = k) ->
  NoDup order ->
  (forall k, is_Some (graph.Get g k) -> k ∈ order) ->
  load.ResolveDependencies paramCalls refCalls VertexSplitTraverse order g = (g', None) ->
  Sorted lt_string ms ->
  (forall v, v ∈ ms
     <-> exists meta, graph.Get g v = Some meta /\ load.reportedGroup meta = Some group) ->
  ms !! i = Some prev ->
  ms !! S i = Some cur ->
  (graph.AreSiblingIDs cur prev = true ->
     (cur, prev) ∈ graph.edges g' /\ graph.path g' cur prev)
  /\ (graph.AreSiblingIDs cur prev = false ->
      (load.groupDep cur, load.groupDep prev) ∈ graph.edges g'
      /\ load.groupDep cur
         = (if graph.IsRoot (graph.ParentID cur) then cur else graph.ParentID cur)
      /\ load.groupDep prev
         = (if graph.IsRoot (graph.ParentID prev) then prev else graph.ParentID prev)).
Proof.
  intros Hkeyed Hdistinct Hcovered Hrun Hsorted Hms Hprev Hcur.
  apply ResolveDependencies_ok in Hrun as (out & groupMap & -> & _ & Hgm & _).
  destruct (members_spec g order Hkeyed Hdistinct Hcovered group) as (Hnodup & Hmem).
  set (ids := node.ID <$> filter _ _) in *.
  assert (Hsort : sort_Strings ids = ms).
  { apply sort_Strings_ascending; [done..|]. intros v. by rewrite Hms, Hmem. }
  assert (Hids : groupMap !! group = Some ids).
  { rewrite Hgm, foldl_recordGroup_lookup. fold ids.
    destruct ids as [|id ids']; [|done].
    simpl in Hsort. subst ms. done. }
  assert (Hedge : load.groupEdge cur prev ∈ graph.edges (load.connectGroups groupMap out)).
  { apply (connectGroups_adjacent groupMap out group ids i); by rewrite ?Hsort. }
  unfold load.groupEdge in Hedge. split.
  - intros Hsib. rewrite Hsib in Hedge. simpl in Hedge. split; [done|].
    by apply rtc_once.
  - intros Hsib. rewrite Hsib in Hedge. simpl in Hedge. split; [done|].
    unfold load.groupDep. split.
    + by destruct (graph.IsRoot (graph.ParentID cur)).
    + by destruct (graph.IsRoot (graph.ParentID prev)).
Qed.

End GroupSerialization.

(** A set of vertices that is closed under the edges holds every vertex
    that a path from one of its members reaches. *)
Lemma path_closed (g : graph.Graph) (S : gset string) (a b : string) :
  (forall x y, (x, y) ∈ graph.edges g -> x ∈ S -> y ∈ S) ->
  a ∈ S -> graph.path g a b -> b ∈ S.
Proof.
  intros Hclosed Ha Hpath. induction Hpath as [|x y z Hxy _ IH]; [done|].
  apply IH. by apply (Hclosed x y).
Qed.

Lemma closed_sound (E : gset (string * string)) (S : gset string) :
  samples.closed E S = true -> forall x y, (x, y) ∈ E -> x ∈ S -> y ∈ S.
Proof.
  unfold samples.closed. rewrite forallb_forall. intros Hall x y Hxy Hx.
  specialize (Hall (x, y)). simpl in Hall.
  rewrite <- list_elem_of_In, elem_of_elements in Hall. specialize (Hall Hxy).
  rewrite (bool_decide_eq_true_2 _ Hx) in Hall. simpl in Hall.
  by apply bool_decide_eq_true_1 in Hall.
Qed.

Lemma group_members_serialized_witness :
  let g' := fst (samples.ResolveDependencies samples.groupedOrder (samples.grouped false)) in
  ("root/a/z", "root/a/x") ∈ graph.edges g' /\ graph.path g' "root/a/z" "root/a/x".
Proof.
  apply (group_members_serialized samples.paramCalls samples.refCalls
           samples.VertexSplitTraverse samples.groupedOrder (samples.grouped false)
           (fst (samples.ResolveDependencies samples.groupedOrder (samples.grouped false)))
           "apt" ["root/a/x"; "root/a/z"; "root/b/y"] 0 "root/a/x" "root/a/z").
  - assert (H : map_Forall (fun k meta => node.ID meta = k)
                  (graph.vertices (samples.grouped false))).
    { compute_done. }
    exact H.
  - compute_done.
  - intros k [meta Hk].
    assert (H : map_Forall (fun k _ => k ∈ samples.groupedOrder)
                  (graph.vertices (samples.grouped false))).
    { compute_done. }
    exact (H k meta Hk).
  - vm_compute. reflexivity.
  - repeat constructor.
  - intros v. split.
    + intros Hv. repeat (apply elem_of_cons in Hv as [-> | Hv]);
        [eexists; split; vm_compute; reflexivity ..|].
      by apply elem_of_nil in Hv.
    + intros (meta & Hget & Hgrp).
      assert (H : map_Forall (fun k meta => load.reportedGroup meta = Some "apt" ->
                                k ∈ ["root/a/x"; "root/a/z"; "root/b/y"])
                    (graph.vertices (samples.grouped false))).
      { compute_done. }
      exact (H v meta Hget Hgrp).
  - reflexivity.
  - reflexivity.
  - vm_compute. reflexivity.
Defined.

(** C1 as stated fails for members of different modules: the tasks of
    the group "apt" are root/a/x < root/a/z < root/b/y; root/b/y and
    root/a/z are not siblings, the edge that serializes them runs from
    root/b to root/a, and no directed path leads from root/b/y to
    root/a/z, whichever way the containment edges of the loader run. *)
Lemma grouped_modules_without_path :
  let members (g : graph.Graph) :=
    sort_Strings
      (filter (fun v => load.reportedGroup <$> graph.Get g v = Some (Some "apt"))
              samples.groupedOrder) in
  let resolved (downwards : bool) :=
    samples.ResolveDependencies samples.groupedOrder (samples.grouped downwards) in
  (snd (resolved false) = None
   /\ members (samples.grouped false) = ["root/a/x"; "root/a/z"; "root/b/y"]
   /\ graph.AreSiblingIDs "root/b/y" "root/a/z" = false
   /\ ("root/b", "root/a") ∈ graph.edges (fst (resolved false))
   /\ ~ graph.path (fst (resolved false)) "root/b/y" "root/a/z")
  /\ (snd (resolved true) = None
      /\ members (samples.grouped true) = ["root/a/x"; "root/a/z"; "root/b/y"]
      /\ ("root/b", "root/a") ∈ graph.edges (fst (resolved true))
      /\ ~ graph.path (fst (resolved true)) "root/b/y" "root/a/z").
Proof.
  simpl. split_and!; try (vm_compute; reflexivity).
  - intros Hpath.
    apply (path_closed _ {[ "root/b/y"; "root/b"; "root/a"; "root" ]}) in Hpath.
    + revert Hpath. compute_done.
    + apply closed_sound. vm_compute. reflexivity.
    + compute_done.
  - intros Hpath.
    apply (path_closed _ {[ "root/b/y" ]}) in Hpath.
    + revert Hpath. compute_done.
    + apply closed_sound. vm_compute. reflexivity.
    + compute_done.
Qed.

(* ===================================================================== *)
(** * Part III: further properties of the code                            *)
(* ===================================================================== *)

(* --------------------------------------------------------------------- *)
(** ** The generators, when they succeed                                  *)
(* --------------------------------------------------------------------- *)

(** What getNearestAncestor returns is a vertex of the graph that holds
    a parse node. *)
Lemma getNearestAncestor_is_vertex (g : graph.Graph) (id name a : string) :
  load.getNearestAncestor g id name = Some a ->
  exists m p, graph.Get g a = Some m /\ asParseNode (node.Value_of m) = Some p.
Proof.
  intros Ha. apply getNearestAncestor_found in Ha as (k & m & p & _ & _ & _ & Hm & Hp).
  by exists m, p.
Qed.

Lemma resolveDepends_ok (g : graph.Graph) (id : string) (deps : list string) :
  forall out,
    load.resolveDepends g id deps = (out, None) ->
    Forall2 (fun dep a => load.getNearestAncestor g id dep = Some a) deps out.
Proof.
  induction deps as [|dep deps IH]; intros out; simpl.
  - intros [= <-]. constructor.
  - destruct (load.getNearestAncestor g id dep) as [a|] eqn:Ha; [|discriminate].
    destruct (load.resolveDepends g id deps) as [rest err].
    intros [= <- ->]. constructor; [done|]. by apply IH.
Qed.

(** getDepends, when the node has a depends list and no error comes
    back, returns one vertex per entry, in the order of the entries:
    the vertex that getNearestAncestor finds for the entry, which is a
    vertex of the graph that holds a parse node. *)
Theorem getDepends_resolves (g : graph.Graph) (id : string) (node : parse.Node)
    (deps out : list string) :
  parse.GetStringSlice_depends node = (deps, None) ->
  load.getDepends g id node = (out, None) ->
  Forall2 (fun dep a => load.getNearestAncestor g id dep = Some a) deps out
  /\ length out = length deps
  /\ forall a, a ∈ out ->
       exists m p, graph.Get g a = Some m /\ asParseNode (node.Value_of m) = Some p.
Proof.
  intros Hdeps. unfold load.getDepends. rewrite Hdeps.
  destruct (load.resolveDepends g id deps) as [out' [e|]] eqn:Hres; [discriminate|].
  intros [= <-]. apply resolveDepends_ok in Hres.
  split_and!; [done| by apply Forall2_length in Hres |].
  intros a Ha. apply list_elem_of_lookup in Ha as (i & Hi).
  destruct (Forall2_lookup_r _ _ _ _ _ Hres Hi) as (dep & _ & Hdep).
  by apply (getNearestAncestor_is_vertex g id dep).
Qed.

Lemma getDepends_resolves_witness :
  Forall2 (fun dep a => load.getNearestAncestor resolution.wired "root/module.m/task.use" dep
                        = Some a)
          ["task.build"] ["root/module.m/task.build"].
Proof.
  apply (getDepends_resolves resolution.wired "root/module.m/task.use" resolution.wiredBlock
           ["task.build"] ["root/module.m/task.build"]).
  - reflexivity.
  - vm_compute. reflexivity.
Defined.

(** The first loop of getParams and of getXrefs, when every string
    parses: what it returns is what the strings recorded, in order. *)
Lemma recordCalls_ok (run : string -> load.parsed) (strs : list string) :
  forall acc out,
    load.recordCalls run strs acc = (out, None) ->
    exists css, Forall2 (fun s cs => run s = load.Recorded cs) strs css
                /\ out = acc ++ concat css.
Proof.
  induction strs as [|s strs IH]; intros acc out; simpl.
  - intros [= <-]. exists []. split; [constructor|]. simpl. by rewrite app_nil_r.
  - destruct (run s) as [e|cs] eqn:Hs; [discriminate|].
    intros Hrun. apply IH in Hrun as (css & Hcss & ->).
    exists (cs :: css). split; [by constructor|]. simpl. by rewrite app_assoc.
Qed.

Lemma resolveParams_ok (g : graph.Graph) (id : string) (names : list string) :
  forall out,
    load.resolveParams g id names = (out, None) ->
    Forall2 (fun N a => load.getNearestAncestor g id ("param." +:+ N) = Some a) names out.
Proof.
  induction names as [|N names IH]; intros out; simpl.
  - intros [= <-]. constructor.
  - destruct (load.getNearestAncestor g id ("param." +:+ N)) as [a|] eqn:Ha; [|discriminate].
    destruct (load.resolveParams g id names) as [rest err].
    intros [= <- ->]. constructor; [done|]. by apply IH.
Qed.

Section GeneratorsSucceed.
Variable paramCalls : string -> load.parsed.
Variable refCalls : string -> load.parsed.
Variable VertexSplitTraverse : graph.Graph -> string -> string -> option string.

(** getParams, when no error comes back, returns one vertex per call of
    param, paramList or paramMap that the strings of the node recorded,
    in the order of the calls and with repetitions kept: the vertex
    that getNearestAncestor finds for param.N, which is a vertex of the
    graph that holds a parse node. *)
Theorem getParams_resolves (g : graph.Graph) (id : string) (node : parse.Node)
    (strs out : list string) :
  parse.GetStrings node = (strs, None) ->
  load.getParams paramCalls g id node = (out, None) ->
  exists css,
    Forall2 (fun s cs => paramCalls s = load.Recorded cs) strs css
    /\ Forall2 (fun N a => load.getNearestAncestor g id ("param." +:+ N) = Some a)
               (concat css) out
    /\ forall a, a ∈ out ->
         exists m p, graph.Get g a = Some m /\ asParseNode (node.Value_of m) = Some p.
Proof.
  intros Hstrs. unfold load.getParams. rewrite Hstrs.
  destruct (load.recordCalls paramCalls strs []) as [names [e|]] eqn:Hrec; [discriminate|].
  intros Hres. apply recordCalls_ok in Hrec as (css & Hcss & ->). simpl in Hres.
  apply resolveParams_ok in Hres. exists css. split_and!; [done..|].
  intros a Ha. apply list_elem_of_lookup in Ha as (i & Hi).
  destruct (Forall2_lookup_r _ _ _ _ _ Hres Hi) as (N & _ & HN).
  by apply (getNearestAncestor_is_vertex g id ("param." +:+ N)).
Qed.

(** The second loop of getXrefs returns nothing but what it was handed,
    the targets of its calls and the peers of those targets. *)
Lemma resolveXrefs_sound (g : graph.Graph) (id : string) (calls : list string) :
  forall nodeRefs out out' x,
    load.resolveXrefs VertexSplitTraverse g id calls nodeRefs out = (out', None) ->
    x ∈ out' ->
    x ∈ out
    \/ exists call t, call ∈ calls
                      /\ VertexSplitTraverse g call id = Some t
                      /\ (x = t \/ load.getPeerVertex id t = Some x).
Proof.
  induction calls as [|call calls IH]; intros nodeRefs out out' x; simpl.
  - intros [= <-] Hx. by left.
  - destruct (VertexSplitTraverse g call id) as [vertex|] eqn:Hv; [|discriminate].
    destruct (decide (vertex ∈ nodeRefs)).
    + intros Hrun Hx. destruct (IH _ _ _ _ Hrun Hx) as [H | (c & t & Hc & Ht & Hxt)]; [by left|].
      right. exists c, t. split_and!; [by right|done..].
    + intros Hrun Hx. destruct (IH _ _ _ _ Hrun Hx) as [H | (c & t & Hc & Ht & Hxt)].
      * destruct (load.getPeerVertex id vertex) as [peer|] eqn:Hp.
        -- rewrite !elem_of_app, !list_elem_of_singleton in H.
           destruct H as [[H | ->] | ->]; [by left|right..];
             exists call, vertex; (split_and!; [by left|done|auto]).
        -- rewrite !elem_of_app, !list_elem_of_singleton in H.
           destruct H as [H | ->]; [by left|right].
           exists call, vertex. split_and!; [by left|done|auto].
      * right. exists c, t. split_and!; [by right|done..].
Qed.

(** getXrefs, when no error comes back, returns exactly the targets to
    which the lookup calls of the node resolve and the peers that
    getPeerVertex finds for those targets; every call has resolved. *)
Theorem getXrefs_targets_and_peers (g : graph.Graph) (id : string) (node : parse.Node)
    (strs calls out : list string) :
  parse.GetStrings node = (strs, None) ->
  load.recordCalls refCalls strs [] = (calls, None) ->
  load.getXrefs refCalls VertexSplitTraverse g id node = (out, None) ->
  (forall call, call ∈ calls -> is_Some (VertexSplitTraverse g call id))
  /\ forall x, x ∈ out
       <-> exists call t, call ∈ calls
                          /\ VertexSplitTraverse g call id = Some t
                          /\ (x = t \/ load.getPeerVertex id t = Some x).
Proof.
  intros Hstrs Hrec. unfold load.getXrefs. rewrite Hstrs, Hrec. intros Hrun.
  pose proof Hrun as Hok. apply resolveXrefs_ok in Hok as (_ & Hcalls).
  2:{ intros t Ht. by apply not_elem_of_empty in Ht. }
  split.
  - intros call Hc. destruct (Hcalls call Hc) as (t & Ht & _). by exists t.
  - intros x. split.
    + intros Hx. destruct (resolveXrefs_sound g id calls ∅ [] out x Hrun Hx) as [H | H]; [|done].
      by apply elem_of_nil in H.
    + intros (call & t & Hc & Ht & Hx).
      destruct (Hcalls call Hc) as (t' & Ht' & Hin & Hpeer).
      rewrite Ht in Ht'. injection Ht' as <-.
      destruct Hx as [-> | Hx]; [done | by apply Hpeer].
Qed.

End GeneratorsSucceed.

Lemma getParams_resolves_witness :
  exists css,
    Forall2 (fun s cs => samples.paramCalls s = load.Recorded cs)
            ["{{param `a`}}-{{param `b`}}"; "{{lookup `task.build.status`}}"] css
    /\ Forall2 (fun N a => load.getNearestAncestor resolution.wired "root/module.m/task.use"
                             ("param." +:+ N) = Some a)
               (concat css) ["root/param.a"; "root/module.m/param.b"].
Proof.
  destruct (getParams_resolves samples.paramCalls resolution.wired "root/module.m/task.use"
              resolution.wiredBlock
              ["{{param `a`}}-{{param `b`}}"; "{{lookup `task.build.status`}}"]
              ["root/param.a"; "root/module.m/param.b"]) as (css & H1 & H2 & _).
  - reflexivity.
  - vm_compute. reflexivity.
  - by exists css.
Defined.

Lemma getXrefs_targets_and_peers_witness :
  is_Some (samples.VertexSplitTraverse resolution.wired "task.build.status"
             "root/module.m/task.use")
  /\ ("root/module.m/task.build" ∈ ["root/module.m/task.build"; "root/module.m/task.build"]
      <-> exists call t, call ∈ ["task.build.status"]
            /\ samples.VertexSplitTraverse resolution.wired call "root/module.m/task.use"
               = Some t
            /\ ("root/module.m/task.build" = t
                \/ load.getPeerVertex "root/module.m/task.use" t
                   = Some "root/module.m/task.build")).
Proof.
  destruct (getXrefs_targets_and_peers samples.refCalls samples.VertexSplitTraverse
              resolution.wired "root/module.m/task.use" resolution.wiredBlock
              ["{{param `a`}}-{{param `b`}}"; "{{lookup `task.build.status`}}"]
              ["task.build.status"]
              ["root/module.m/task.build"; "root/module.m/task.build"])
    as [Hall Hiff].
  - reflexivity.
  - vm_compute. reflexivity.
  - vm_compute. reflexivity.
  - split; [|exact (Hiff "root/module.m/task.build")].
    apply Hall, list_elem_of_singleton. reflexivity.
Defined.

(* --------------------------------------------------------------------- *)
(** ** The generators and templates that do not parse                     *)
(* --------------------------------------------------------------------- *)

(** The first loop stops at the first string that does not parse, with
    the error of the parser and with what the strings before it have
    recorded. *)
Lemma recordCalls_fails (run : string -> load.parsed) (strs : list string) (s : string)
    (e : error) :
  forall acc,
    s ∈ strs ->
    run s = load.ParseError e ->
    exists pre s' e' post css,
      strs = pre ++ s' :: post
      /\ Forall2 (fun x cs => run x = load.Recorded cs) pre css
      /\ run s' = load.ParseError e'
      /\ load.recordCalls run strs acc = (acc ++ concat css, Some e').
Proof.
  induction strs as [|a strs IH]; intros acc Hin Hs.
  - by apply elem_of_nil in Hin.
  - simpl. destruct (run a) as [ea|cs] eqn:Ha.
    + exists [], a, ea, strs, []. split_and!; [done|constructor|done|].
      simpl. by rewrite app_nil_r.
    + apply elem_of_cons in Hin as [-> | Hin]; [congruence|].
      destruct (IH (acc ++ cs) Hin Hs) as (pre & s' & e' & post & css & -> & Hpre & Hs' & Hrun).
      exists (a :: pre), s', e', post, (cs :: css).
      split_and!; [done|by constructor|done|].
      rewrite Hrun. simpl. by rewrite app_assoc.
Qed.

Section TemplateErrors.
Variable paramCalls : string -> load.parsed.
Variable refCalls : string -> load.parsed.
Variable VertexSplitTraverse : graph.Graph -> string -> string -> option string.

(** A string of the node that does not parse as a template makes each
    generator return the error of the parser for the first such string,
    whatever the graph is: getParams together with the names recorded up
    to there, none of them resolved, and getXrefs with no dependency. *)
Theorem template_error_ends_generator (g : graph.Graph) (id : string) (node : parse.Node)
    (strs : list string) (s : string) (e : error) :
  parse.GetStrings node = (strs, None) ->
  s ∈ strs ->
  (paramCalls s = load.ParseError e ->
   exists pre s' e' post css,
     strs = pre ++ s' :: post
     /\ Forall2 (fun x cs => paramCalls x = load.Recorded cs) pre css
     /\ paramCalls s' = load.ParseError e'
     /\ load.getParams paramCalls g id node = (concat css, Some e'))
  /\ (refCalls s = load.ParseError e ->
      exists pre s' e' post css,
        strs = pre ++ s' :: post
        /\ Forall2 (fun x cs => refCalls x = load.Recorded cs) pre css
        /\ refCalls s' = load.ParseError e'
        /\ load.getXrefs refCalls VertexSplitTraverse g id node = ([], Some e')).
Proof.
  intros Hstrs Hin. split; intros Hs.
  - destruct (recordCalls_fails paramCalls strs s e [] Hin Hs)
      as (pre & s' & e' & post & css & Hsplit & Hpre & Hs' & Hrun).
    exists pre, s', e', post, css. split_and!; [done..|].
    unfold load.getParams. by rewrite Hstrs, Hrun.
  - destruct (recordCalls_fails refCalls strs s e [] Hin Hs)
      as (pre & s' & e' & post & css & Hsplit & Hpre & Hs' & Hrun).
    exists pre, s', e', post, css. split_and!; [done..|].
    unfold load.getXrefs. by rewrite Hstrs, Hrun.
Qed.

End TemplateErrors.

Lemma template_error_ends_generator_witness :
  exists pre s' e' post css,
    ["{{param `a`}}-{{param `b`}}"; "{{param"] = pre ++ s' :: post
    /\ Forall2 (fun x cs => samples.paramCalls x = load.Recorded cs) pre css
    /\ samples.paramCalls s' = load.ParseError e'
    /\ load.getParams samples.paramCalls samples.undeclared "root/task.x"
         (samples.block [] ["{{param `a`}}-{{param `b`}}"; "{{param"] "")
       = (concat css, Some e').
Proof.
  apply (template_error_ends_generator samples.paramCalls samples.refCalls
           samples.VertexSplitTraverse samples.undeclared "root/task.x"
           (samples.block [] ["{{param `a`}}-{{param `b`}}"; "{{param"] "")
           ["{{param `a`}}-{{param `b`}}"; "{{param"] "{{param"
           (Errorf "template: unclosed action")).
  - reflexivity.
  - apply elem_of_cons. right. apply list_elem_of_singleton. reflexivity.
  - reflexivity.
Defined.

(* --------------------------------------------------------------------- *)
(** ** What resolution keeps and what it rejects                          *)
(* --------------------------------------------------------------------- *)

Lemma connectDeps_vertices (out : graph.Graph) (id : string) (deps : list string) :
  graph.vertices (load.connectDeps out id deps) = graph.vertices out.
Proof.
  unfold load.connectDeps. revert out. induction deps as [|d deps IH]; intros out; [done|].
  simpl. by rewrite IH.
Qed.

Lemma runGenerators_keeps (gens : list load.dependencyGenerator) (g : graph.Graph)
    (id : string) (node : parse.Node) :
  forall out,
    graph.vertices (fst (load.runGenerators gens g id node out)) = graph.vertices out
    /\ graph.edges out ⊆ graph.edges (fst (load.runGenerators gens g id node out)).
Proof.
  induction gens as [|source gens IH]; intros out; simpl; [done|].
  destruct (source g id node) as [deps [e|]]; simpl; [done|].
  destruct (IH (load.connectDeps out id deps)) as (Hv & He).
  rewrite Hv, connectDeps_vertices. split; [done|].
  etrans; [|exact He]. apply elem_of_subseteq. intros e He'.
  apply connectDeps_edges. by left.
Qed.

Lemma connectGroup_vertices (ids : list string) :
  forall g, graph.vertices (load.connectGroup ids g) = graph.vertices g.
Proof.
  induction ids as [|prev rest IH]; intros g; [done|].
  destruct rest as [|cur rest]; [done|].
  change (load.connectGroup (prev :: cur :: rest) g)
    with (let '(from, to) := load.groupEdge cur prev in
          load.connectGroup (cur :: rest) (graph.Connect g from to)).
  destruct (load.groupEdge cur prev) as [from to]. by rewrite IH.
Qed.

Lemma connectGroups_vertices (groupMap : gmap string (list string)) (g : graph.Graph) :
  graph.vertices (load.connectGroups groupMap g) = graph.vertices g.
Proof.
  unfold load.connectGroups.
  induction (map_to_list groupMap) as [|entry l IH]; simpl; [done|].
  by rewrite connectGroup_vertices.
Qed.

Section Keeps.
Variable paramCalls : string -> load.parsed.
Variable refCalls : string -> load.parsed.
Variable VertexSplitTraverse : graph.Graph -> string -> string -> option string.

Abbreviation callback := (load.resolveVertex paramCalls refCalls VertexSplitTraverse).

Lemma resolveVertex_keeps (g : graph.Graph) (meta : node.Node) st :
  graph.vertices (fst (fst (callback g meta st))) = graph.vertices (fst st)
  /\ graph.edges (fst st) ⊆ graph.edges (fst (fst (callback g meta st))).
Proof.
  destruct st as [out groupMap]. unfold load.resolveVertex.
  destruct (graph.IsRoot (node.ID meta)); [done|].
  destruct (asParseNode (node.Value_of meta)) as [node|]; [|done].
  pose proof (runGenerators_keeps
                (load.depGenerators paramCalls refCalls VertexSplitTraverse)
                g (node.ID meta) node out) as Hgen.
  destruct (load.runGenerators _ g (node.ID meta) node out) as [out' [e|]]; [done|].
  destruct (load.groupName node) as [group [e|]]; [done|].
  by destruct (String.eqb group "").
Qed.

Lemma foldl_visit_keeps (g : graph.Graph) (nodes : list node.Node) :
  forall acc,
    graph.vertices (fst (fst (foldl (graph.visit (callback g)) acc nodes)))
    = graph.vertices (fst (fst acc))
    /\ graph.edges (fst (fst acc))
       ⊆ graph.edges (fst (fst (foldl (graph.visit (callback g)) acc nodes))).
Proof.
  induction nodes as [|meta nodes IH]; intros acc; [done|].
  change (foldl ?f acc (meta :: nodes)) with (foldl f (f acc meta) nodes).
  destruct (IH (graph.visit (callback g) acc meta)) as (Hv & He).
  rewrite Hv. unfold graph.visit in *.
  pose proof (resolveVertex_keeps g meta (fst acc)) as (Hv1 & He1).
  destruct (callback g meta (fst acc)) as [st' err]. simpl in *.
  split; [done|]. by etrans.
Qed.

Lemma ResolveDependencies_vertices (order : list string) (g : graph.Graph) :
  graph.vertices (fst (load.ResolveDependencies paramCalls refCalls VertexSplitTraverse
                         order g))
  = graph.vertices g.
Proof.
  unfold load.ResolveDependencies, graph.Transform.
  pose proof (foldl_visit_keeps g (omap (graph.Get g) order) ((g, ∅), None)) as (Hv & _).
  destruct (foldl _ _ _) as [[out groupMap] first]. simpl in *.
  by rewrite connectGroups_vertices.
Qed.

(** ResolveDependencies only adds edges: whether it returns an error or
    not, the graph it returns has the vertices of the graph it was
    given, each with the node it had, and every edge of that graph. *)
Theorem ResolveDependencies_only_adds_edges (order : list string) (g : graph.Graph) :
  let g' := fst (load.ResolveDependencies paramCalls refCalls VertexSplitTraverse order g) in
  graph.vertices g' = graph.vertices g /\ graph.edges g ⊆ graph.edges g'.
Proof.
  unfold load.ResolveDependencies, graph.Transform.
  pose proof (foldl_visit_keeps g (omap (graph.Get g) order) ((g, ∅), None)) as (Hv & He).
  destruct (foldl _ _ _) as [[out groupMap] first]. simpl in *.
  rewrite connectGroups_vertices. split; [done|].
  etrans; [exact He|]. apply connectGroups_mono.
Qed.

(** A vertex other than the root whose value is not a parse node makes
    the callback return the error that names the type of the value and
    leave the graph and the groups as they were, and makes
    ResolveDependencies return an error; the value of the root is not
    looked at. *)
Theorem other_values_rejected (order : list string) (g : graph.Graph) (id : string)
    (meta : node.Node) :
  graph.Get g id = Some meta ->
  node.ID meta = id ->
  id ∈ order ->
  asParseNode (node.Value_of meta) = None ->
  (graph.IsRoot id = true -> forall st, callback g meta st = (st, None))
  /\ (graph.IsRoot id = false ->
      (forall st,
          callback g meta st
          = (st, Some (Errorf ("ResolveDependencies can only be used on Graphs of *parse.Node. I got "
                               +:+ typeName (node.Value_of meta)))))
      /\ snd (load.ResolveDependencies paramCalls refCalls VertexSplitTraverse order g) <> None).
Proof.
  intros Hget Hid Hin Hvalue. split; intros Hroot.
  - intros [out groupMap]. unfold load.resolveVertex. by rewrite Hid, Hroot.
  - assert (Hcb : forall st,
               callback g meta st
               = (st, Some (Errorf ("ResolveDependencies can only be used on Graphs of *parse.Node. I got "
                                    +:+ typeName (node.Value_of meta))))).
    { intros [out groupMap]. unfold load.resolveVertex. by rewrite Hid, Hroot, Hvalue. }
    split; [exact Hcb|].
    rewrite ResolveDependencies_error.
    apply (Transform_fails _ order g ∅ id meta Hin Hget).
    intros st'. by rewrite Hcb.
Qed.

End Keeps.

Lemma other_values_rejected_witness :
  snd (samples.ResolveDependencies
         ["root"; "root/x"; "root/m"; "root/m/x"; "root/m/y"] samples.shadowed) <> None.
Proof.
  apply (other_values_rejected samples.paramCalls samples.refCalls samples.VertexSplitTraverse
           ["root"; "root/x"; "root/m"; "root/m/x"; "root/m/y"] samples.shadowed
           "root/m/x" (node.New "root/m/x" (VTask "*shell.Shell"))).
  - vm_compute. reflexivity.
  - reflexivity.
  - compute_done.
  - reflexivity.
  - reflexivity.
Defined.

(* --------------------------------------------------------------------- *)
(** ** The edges of a graph resolved without error                        *)
(* --------------------------------------------------------------------- *)

Lemma connectGroup_edges (ids : list string) :
  forall g e,
    e ∈ graph.edges (load.connectGroup ids g)
    <-> e ∈ graph.edges g
        \/ exists i prev cur,
             ids !! i = Some prev /\ ids !! S i = Some cur /\ e = load.groupEdge cur prev.
Proof.
  induction ids as [|a rest IH]; intros g e.
  - simpl. split; [auto|]. intros [H | (i & prev & cur & H & _)]; [done|]. done.
  - destruct rest as [|b rest].
    + simpl. split; [auto|]. intros [H | (i & prev & cur & _ & H & _)]; [done|]. done.
    + change (load.connectGroup (a :: b :: rest) g)
        with (let '(from, to) := load.groupEdge b a in
              load.connectGroup (b :: rest) (graph.Connect g from to)).
      destruct (load.groupEdge b a) as [from to] eqn:Hba. rewrite IH. simpl.
      rewrite elem_of_union, elem_of_singleton. split.
      * intros [[-> | H] | (i & prev & cur & Hp & Hc & ->)]; [|by left|].
        -- right. exists 0, a, b. by rewrite Hba.
        -- right. by exists (S i), prev, cur.
      * intros [H | (i & prev & cur & Hp & Hc & ->)]; [by left; right|].
        destruct i as [|i].
        -- simpl in Hp, Hc. injection Hp as ->. injection Hc as ->. left. left. done.
        -- right. by exists i, prev, cur.
Qed.

Lemma connectGroups_edges (groupMap : gmap string (list string)) (g : graph.Graph) e :
  e ∈ graph.edges (load.connectGroups groupMap g)
  <-> e ∈ graph.edges g
      \/ exists group ids i prev cur,
           groupMap !! group = Some ids
           /\ sort_Strings ids !! i = Some prev
           /\ sort_Strings ids !! S i = Some cur
           /\ e = load.groupEdge cur prev.
Proof.
  unfold load.connectGroups.
  assert (Hl : forall group ids, groupMap !! group = Some ids
                                 <-> (group, ids) ∈ map_to_list groupMap).
  { intros. by rewrite elem_of_map_to_list. }
  setoid_rewrite Hl. clear Hl.
  induction (map_to_list groupMap) as [|[group0 ids0] l IH]; simpl.
  - split; [auto|]. intros [H | (group & ids & i & prev & cur & H & _)]; [done|].
    by apply elem_of_nil in H.
  - rewrite connectGroup_edges, IH. split.
    + intros [[H | (group & ids & i & prev & cur & Hin & H)] | (i & prev & cur & H)].
      * by left.
      * right. exists group, ids, i, prev, cur. split; [by right|done].
      * right. exists group0, ids0, i, prev, cur. split; [by left|done].
    + intros [H | (group & ids & i & prev & cur & Hin & H)]; [by left; left|].
      apply elem_of_cons in Hin as [[= -> ->] | Hin].
      * right. by exists i, prev, cur.
      * left. right. by exists group, ids, i, prev, cur.
Qed.

(** An ascending list without duplicates is strictly ascending. *)
Lemma Sorted_le_NoDup (l : list string) : Sorted le_string l -> NoDup l -> Sorted lt_string l.
Proof.
  induction 1 as [|x l Hl IH Hx]; intros Hnd; [constructor|].
  apply NoDup_cons in Hnd as (Hx' & Hnd). constructor; [by apply IH|].
  destruct Hx as [|y l Hxy]; constructor.
  apply String_leb_ltb in Hxy as [Hxy | ->]; [done|].
  exfalso. apply Hx'. by left.
Qed.

(** A callback of a Transform that ends with an error has failed. *)
Lemma foldl_visit_error_inv {St : Type}
    (cb : node.Node -> graph.Graph * St -> (graph.Graph * St) * option error)
    (nodes : list node.Node) :
  forall acc,
    snd acc = None ->
    snd (foldl (graph.visit cb) acc nodes) <> None ->
    exists meta st, meta ∈ nodes /\ snd (cb meta st) <> None.
Proof.
  induction nodes as [|meta nodes IH]; intros acc Hacc Hrun; [done|].
  change (foldl ?f acc (meta :: nodes)) with (foldl f (f acc meta) nodes) in Hrun.
  destruct (snd (cb meta (fst acc))) as [e|] eqn:He.
  - exists meta, (fst acc). split; [by left|]. by rewrite He.
  - destruct (IH (graph.visit cb acc meta)) as (m & st & Hm & Hst); [|done|].
    + unfold graph.visit. destruct (cb meta (fst acc)) as [st' err]. simpl in *.
      by rewrite He.
    + exists m, st. split; [by right|done].
Qed.

Section ResolvedEdges.
Variable paramCalls : string -> load.parsed.
Variable refCalls : string -> load.parsed.
Variable VertexSplitTraverse : graph.Graph -> string -> string -> option string.

Abbreviation callback' := (load.resolveVertex paramCalls refCalls VertexSplitTraverse).
Abbreviation Resolve := (load.ResolveDependencies paramCalls refCalls VertexSplitTraverse).
Abbreviation generated := (resolution.generated paramCalls refCalls VertexSplitTraverse).

(** Whether the callback fails at a vertex does not depend on the graph
    and the groups built so far. *)
Lemma resolveVertex_error_indep (g : graph.Graph) (meta : node.Node) st st' :
  snd (callback' g meta st) = snd (callback' g meta st').
Proof.
  destruct st as [out groupMap], st' as [out' groupMap']. unfold load.resolveVertex.
  destruct (graph.IsRoot (node.ID meta)); [done|].
  destruct (asParseNode (node.Value_of meta)) as [node|]; [|done].
  unfold load.depGenerators. simpl.
  destruct (load.getDepends g (node.ID meta) node) as [d1 [e1|]]; [done|].
  destruct (load.getParams paramCalls g (node.ID meta) node) as [d2 [e2|]]; [done|].
  destruct (load.getXrefs refCalls VertexSplitTraverse g (node.ID meta) node)
    as [d3 [e3|]]; [done|].
  destruct (load.groupName node) as [group [e|]]; [done|].
  by destruct (String.eqb group "").
Qed.

(** The edges that a callback that succeeds leaves in [out]. *)
Lemma resolveVertex_ok_edges (g : graph.Graph) (meta : node.Node) out groupMap out' groupMap' e :
  callback' g meta (out, groupMap) = ((out', groupMap'), None) ->
  e ∈ graph.edges out'
  <-> e ∈ graph.edges out
      \/ graph.IsRoot (node.ID meta) = false
         /\ exists node d1 d2 d3,
              asParseNode (node.Value_of meta) = Some node
              /\ load.getDepends g (node.ID meta) node = (d1, None)
              /\ load.getParams paramCalls g (node.ID meta) node = (d2, None)
              /\ load.getXrefs refCalls VertexSplitTraverse g (node.ID meta) node = (d3, None)
              /\ fst e = node.ID meta
              /\ snd e ∈ d1 ++ d2 ++ d3.
Proof.
  unfold load.resolveVertex.
  destruct (graph.IsRoot (node.ID meta)) eqn:Hroot.
  { intros [= <- <-]. split; [auto|]. by intros [H | [? _]]. }
  destruct (asParseNode (node.Value_of meta)) as [node|]; [|discriminate].
  unfold load.depGenerators. simpl.
  destruct (load.getDepends g (node.ID meta) node) as [d1 [e1|]] eqn:E1; [discriminate|].
  destruct (load.getParams paramCalls g (node.ID meta) node) as [d2 [e2|]] eqn:E2;
    [discriminate|].
  destruct (load.getXrefs refCalls VertexSplitTraverse g (node.ID meta) node)
    as [d3 [e3|]] eqn:E3; [discriminate|].
  intros Hrun.
  assert (Hout : out' = load.connectDeps
                          (load.connectDeps (load.connectDeps out (node.ID meta) d1)
                             (node.ID meta) d2) (node.ID meta) d3).
  { destruct (load.groupName node) as [group [e'|]]; [discriminate|].
    by destruct (String.eqb group ""); injection Hrun as <- <-. }
  rewrite Hout, !connectDeps_edges. destruct e as [a b]. simpl. split.
  - intros [[[H | (d & Hd & [= -> ->])] | (d & Hd & [= -> ->])] | (d & Hd & [= -> ->])];
      [by left|right; split; [done|]; exists node, d1, d2, d3; split_and!; try done..];
      rewrite !elem_of_app; auto.
  - intros [H | (_ & node' & d1' & d2' & d3' & Hn & H1 & H2 & H3 & -> & Hd)];
      [by repeat left|].
    injection Hn as <-. rewrite E1 in H1. rewrite E2 in H2. rewrite E3 in H3.
    injection H1 as <-. injection H2 as <-. injection H3 as <-.
    rewrite !elem_of_app in Hd. destruct Hd as [Hd | [Hd | Hd]]; eauto 8.
Qed.

Lemma foldl_visit_ok_edges (g : graph.Graph) (nodes : list node.Node) :
  forall out groupMap out' groupMap' e,
    foldl (graph.visit (callback' g)) ((out, groupMap), None) nodes
    = ((out', groupMap'), None) ->
    e ∈ graph.edges out'
    <-> e ∈ graph.edges out
        \/ exists meta,
             meta ∈ nodes
             /\ graph.IsRoot (node.ID meta) = false
             /\ exists node d1 d2 d3,
                  asParseNode (node.Value_of meta) = Some node
                  /\ load.getDepends g (node.ID meta) node = (d1, None)
                  /\ load.getParams paramCalls g (node.ID meta) node = (d2, None)
                  /\ load.getXrefs refCalls VertexSplitTraverse g (node.ID meta) node
                     = (d3, None)
                  /\ fst e = node.ID meta
                  /\ snd e ∈ d1 ++ d2 ++ d3.
Proof.
  induction nodes as [|meta nodes IH]; intros out groupMap out' groupMap' e Hrun.
  - injection Hrun as <- <-. split; [auto|]. intros [H | (m & Hm & _)]; [done|].
    by apply elem_of_nil in Hm.
  - change (foldl ?f ?a (meta :: nodes)) with (foldl f (f a meta) nodes) in Hrun.
    unfold graph.visit at 2 in Hrun. cbn [fst snd] in Hrun.
    destruct (callback' g meta (out, groupMap)) as [[out1 groupMap1] [err|]] eqn:Hcb.
    { exfalso. eapply (foldl_visit_sticky (callback' g) nodes); [|by rewrite Hrun]. done. }
    rewrite (IH _ _ _ _ e Hrun), (resolveVertex_ok_edges g meta _ _ _ _ e Hcb). split.
    + intros [[H | (Hroot & H)] | (m & Hm & H)]; [by left|right..].
      * exists meta. split; [by left|done].
      * exists m. split; [by right|done].
    + intros [H | (m & Hm & Hroot & H)]; [by left; left|].
      apply elem_of_cons in Hm as [-> | Hm].
      * left. right. done.
      * right. exists m. done.
Qed.

Lemma resolved_edges_iff (order : list string) (g g' : graph.Graph) e :
  (forall k meta, graph.Get g k = Some meta -> node.ID meta = k) ->
  NoDup order ->
  (forall k, is_Some (graph.Get g k) -> k ∈ order) ->
  Resolve order g = (g', None) ->
  e ∈ graph.edges g'
  <-> e ∈ graph.edges g \/ generated g e \/ resolution.serializing g e.
Proof.
  intros Hkeyed Hdistinct Hcovered Hrun. revert e.
  unfold load.ResolveDependencies, graph.Transform in Hrun.
  destruct (foldl _ _ _) as [[out groupMap] [first|]] eqn:Hfold; [discriminate|].
  injection Hrun as <-.
  pose proof (foldl_visit_ok paramCalls refCalls VertexSplitTraverse g _ _ _ _ _ Hfold)
    as (_ & Hgm & _).
  assert (Hgroups : forall group ids,
             groupMap !! group = Some ids
             <-> ids = node.ID <$> filter (fun m => load.reportedGroup m = Some group)
                                          (omap (graph.Get g) order)
                 /\ ids <> []).
  { intros group ids. rewrite Hgm, foldl_recordGroup_lookup, lookup_empty. simpl.
    destruct (node.ID <$> filter _ _) as [|id0 ids0].
    - split; [done|]. by intros [-> ?].
    - split; [by intros [= <-] | by intros [-> _]]. }
  intros e. rewrite connectGroups_edges, (foldl_visit_ok_edges g _ _ _ _ _ e Hfold).
  split.
  - intros [[H | (meta & Hm & Hroot & node & d1 & d2 & d3 & Hn & H1 & H2 & H3 & He & Hd)]
           | (group & ids & i & prev & cur & Hids & Hp & Hc & ->)].
    + by left.
    + right. left. apply list_elem_of_omap in Hm as (k & Hk & Hget).
      pose proof (Hkeyed k meta Hget) as Hid. rewrite Hid in *.
      exists meta, node, d1, d2, d3. rewrite He. split_and!; done.
    + right. right. apply Hgroups in Hids as (Hids & _).
      destruct (members_spec g order Hkeyed Hdistinct Hcovered group) as (Hnodup & Hmem).
      rewrite <- Hids in Hnodup, Hmem.
      exists group, (sort_Strings ids), i, prev, cur. split_and!; [|..|done|done|done].
      * apply Sorted_le_NoDup; [apply sort_Strings_Sorted|].
        by rewrite sort_Strings_Permutation.
      * intros v. by rewrite sort_Strings_Permutation, Hmem.
  - intros [H | [(meta & node & d1 & d2 & d3 & Hget & Hroot & Hn & H1 & H2 & H3 & Hd)
                | (group & ms & i & prev & cur & Hsorted & Hms & Hp & Hc & ->)]].
    + by left; left.
    + left. right. pose proof (Hkeyed _ meta Hget) as Hid.
      exists meta. split_and!.
      * apply list_elem_of_omap. exists (fst e). split; [|done]. apply Hcovered. by exists meta.
      * by rewrite Hid.
      * exists node, d1, d2, d3. rewrite Hid. split_and!; done.
    + right.
      destruct (members_spec g order Hkeyed Hdistinct Hcovered group) as (Hnodup & Hmem).
      set (ids := node.ID <$> filter _ _) in *.
      assert (Hsort : sort_Strings ids = ms).
      { apply sort_Strings_ascending; [done..|]. intros v. by rewrite Hms, Hmem. }
      exists group, ids, i, prev, cur. rewrite Hsort. split_and!; [|done..].
      apply Hgroups. split; [done|]. intros Hnil. rewrite Hnil in Hsort. by subst ms.
Qed.

(** The edges of a graph that ResolveDependencies returns without error
    are the edges that the graph had, the edges from each vertex other
    than the root to the dependencies that its three generators return,
    and the edges that serialize adjacent members of a group; there are
    no others.  The vertices are those of the graph given. *)
Theorem resolved_edges_exactly (order : list string) (g g' : graph.Graph) :
  (forall k meta, graph.Get g k = Some meta -> node.ID meta = k) ->
  NoDup order ->
  (forall k, is_Some (graph.Get g k) -> k ∈ order) ->
  Resolve order g = (g', None) ->
  graph.vertices g' = graph.vertices g
  /\ forall e, e ∈ graph.edges g'
       <-> e ∈ graph.edges g \/ generated g e \/ resolution.serializing g e.
Proof.
  intros Hkeyed Hdistinct Hcovered Hrun. split.
  - pose proof (ResolveDependencies_vertices paramCalls refCalls VertexSplitTraverse
                  order g) as Hv.
    by rewrite Hrun in Hv.
  - intros e. by apply (resolved_edges_iff order).
Qed.

(** The graph that ResolveDependencies returns without error does not
    depend on the order in which the vertices were visited: for any two
    orders that cover the graph, if the one gives a graph and no error,
    the other gives the same graph and no error. *)
Theorem resolution_order_irrelevant (order1 order2 : list string) (g g1 : graph.Graph) :
  (forall k meta, graph.Get g k = Some meta -> node.ID meta = k) ->
  NoDup order1 -> (forall k, is_Some (graph.Get g k) -> k ∈ order1) ->
  NoDup order2 -> (forall k, is_Some (graph.Get g k) -> k ∈ order2) ->
  Resolve order1 g = (g1, None) ->
  Resolve order2 g = (g1, None).
Proof.
  intros Hkeyed Hd1 Hc1 Hd2 Hc2 Hrun1.
  destruct (Resolve order2 g) as [g2 err2] eqn:Hrun2.
  assert (Herr : err2 = None).
  { destruct err2 as [e|]; [|done]. exfalso.
    assert (Hfail : snd (Resolve order2 g) <> None) by by rewrite Hrun2.
    rewrite ResolveDependencies_error in Hfail. unfold graph.Transform in Hfail.
    destruct (foldl _ _ (omap (graph.Get g) order2)) as [res [first|]] eqn:Hfold;
      [|done].
    destruct (foldl_visit_error_inv (callback' g) (omap (graph.Get g) order2)
                ((g, ∅), None) eq_refl) as (meta & st & Hmeta & Hst).
    { by rewrite Hfold. }
    apply list_elem_of_omap in Hmeta as (k & Hk & Hget).
    assert (Hfail1 : snd (Resolve order1 g) <> None).
    { rewrite ResolveDependencies_error.
      apply (Transform_fails _ order1 g ∅ k meta); [apply Hc1; by exists meta|done|].
      intros st'. by rewrite (resolveVertex_error_indep g meta st' st). }
    by rewrite Hrun1 in Hfail1. }
  subst err2. f_equal.
  pose proof (ResolveDependencies_vertices paramCalls refCalls VertexSplitTraverse
                order1 g) as Hv1.
  pose proof (ResolveDependencies_vertices paramCalls refCalls VertexSplitTraverse
                order2 g) as Hv2.
  rewrite Hrun1 in Hv1. rewrite Hrun2 in Hv2.
  assert (He : forall e, e ∈ graph.edges g2 <-> e ∈ graph.edges g1).
  { intros e. rewrite (resolved_edges_iff order1 g g1 e Hkeyed Hd1 Hc1 Hrun1).
    by rewrite (resolved_edges_iff order2 g g2 e Hkeyed Hd2 Hc2 Hrun2). }
  destruct g1 as [v1 e1], g2 as [v2 e2]. simpl in *. f_equal; [congruence|].
  by apply set_eq.
Qed.

End ResolvedEdges.

(** Discharges, by evaluation, what the theorems above ask of a sample
    graph and of an order of its vertices. *)
Ltac sample_graph G :=
  match goal with
  | |- forall k meta, graph.Get _ k = Some meta -> node.ID meta = k =>
      let H := fresh in
      assert (H : map_Forall (fun k meta => node.ID meta = k) (graph.vertices G))
        by compute_done;
      exact H
  | |- forall k, is_Some (graph.Get _ k) -> k ∈ ?order =>
      let H := fresh in
      let k := fresh "k" in
      let meta := fresh "meta" in
      let Hk := fresh "Hk" in
      assert (H : map_Forall (fun k _ => k ∈ order) (graph.vertices G)) by compute_done;
      intros k [meta Hk]; exact (H k meta Hk)
  | |- NoDup _ => compute_done
  | |- _ = _ => vm_compute; reflexivity
  end.

Lemma resolved_edges_exactly_witness :
  let g' := fst (samples.ResolveDependencies samples.groupedOrder (samples.grouped false)) in
  graph.vertices g' = graph.vertices (samples.grouped false)
  /\ (("root/b", "root/a") ∈ graph.edges g'
      <-> ("root/b", "root/a") ∈ graph.edges (samples.grouped false)
          \/ resolution.generated samples.paramCalls samples.refCalls
               samples.VertexSplitTraverse (samples.grouped false) ("root/b", "root/a")
          \/ resolution.serializing (samples.grouped false) ("root/b", "root/a")).
Proof.
  destruct (resolved_edges_exactly samples.paramCalls samples.refCalls
              samples.VertexSplitTraverse samples.groupedOrder (samples.grouped false)
              (fst (samples.ResolveDependencies samples.groupedOrder (samples.grouped false))))
    as [Hv He]; try sample_graph (samples.grouped false).
  split; [exact Hv | exact (He ("root/b", "root/a"))].
Defined.

Lemma resolution_order_irrelevant_witness :
  samples.ResolveDependencies (reverse samples.groupedOrder) (samples.grouped false)
  = (fst (samples.ResolveDependencies samples.groupedOrder (samples.grouped false)), None).
Proof.
  apply (resolution_order_irrelevant samples.paramCalls samples.refCalls
           samples.VertexSplitTraverse samples.groupedOrder (reverse samples.groupedOrder)
           (samples.grouped false));
    sample_graph (samples.grouped false).
Defined.

Section GroupLoops.
Variable paramCalls : string -> load.parsed.
Variable refCalls : string -> load.parsed.
Variable VertexSplitTraverse : graph.Graph -> string -> string -> option string.

(** When two adjacent members of a group are a vertex directly below
    the root and a child of that vertex, the edge that serializes them
    is retargeted at both ends to the vertex itself: the graph returned
    has an edge from that vertex to itself. *)
Theorem group_of_parent_and_child_loops (order : list string) (g g' : graph.Graph)
    (group : string) (ms : list string) (i : nat) (prev cur : string) :
  (forall k meta, graph.Get g k = Some meta -> node.ID meta = k) ->
  NoDup order ->
  (forall k, is_Some (graph.Get g k) -> k ∈ order) ->
  load.ResolveDependencies paramCalls refCalls VertexSplitTraverse order g = (g', None) ->
  Sorted lt_string ms ->
  (forall v, v ∈ ms <-> resolution.reports g v group) ->
  ms !! i = Some prev ->
  ms !! S i = Some cur ->
  graph.ParentID cur = prev ->
  graph.IsRoot (graph.ParentID prev) = true ->
  (prev, prev) ∈ graph.edges g'.
Proof.
  intros Hkeyed Hdistinct Hcovered Hrun Hsorted Hms Hprev Hcur Hparent Hroot.
  assert (Hnotroot : graph.IsRoot prev = false).
  { assert (Hin : prev ∈ ms) by (apply list_elem_of_lookup; eauto).
    apply Hms in Hin as (meta & Hget & Hgrp). apply Hkeyed in Hget as <-.
    unfold load.reportedGroup in Hgrp. by destruct (graph.IsRoot (node.ID meta)). }
  apply (resolved_edges_iff paramCalls refCalls VertexSplitTraverse order g g' _
           Hkeyed Hdistinct Hcovered Hrun).
  right. right. exists group, ms, i, prev, cur. split_and!; [done..|].
  unfold load.groupEdge, graph.AreSiblingIDs, load.groupDep. rewrite Hparent.
  unfold graph.IsRoot in Hroot. apply String.eqb_eq in Hroot. rewrite Hroot.
  change (String.eqb prev "root") with (graph.IsRoot prev). rewrite Hnotroot.
  reflexivity.
Qed.

End GroupLoops.

Lemma group_of_parent_and_child_loops_witness :
  ("root/a", "root/a")
  ∈ graph.edges (fst (samples.ResolveDependencies ["root/a/x"; "root"; "root/a"]
                        resolution.nested)).
Proof.
  apply (group_of_parent_and_child_loops samples.paramCalls samples.refCalls
           samples.VertexSplitTraverse ["root/a/x"; "root"; "root/a"] resolution.nested
           (fst (samples.ResolveDependencies ["root/a/x"; "root"; "root/a"] resolution.nested))
           "apt" ["root/a"; "root/a/x"] 0 "root/a" "root/a/x");
    try sample_graph resolution.nested.
  - repeat constructor.
  - intros v. split.
    + intros Hv. repeat (apply elem_of_cons in Hv as [-> | Hv]);
        [eexists; split; vm_compute; reflexivity ..|].
      by apply elem_of_nil in Hv.
    + intros (meta & Hget & Hgrp).
      assert (H : map_Forall (fun k meta => load.reportedGroup meta = Some "apt" ->
                                k ∈ ["root/a"; "root/a/x"])
                    (graph.vertices resolution.nested)) by compute_done.
      exact (H v meta Hget Hgrp).
Defined.

(* --------------------------------------------------------------------- *)
(** ** The user task: what Check and Apply do to the system               *)
(* --------------------------------------------------------------------- *)

(** Splits on the conditions that the code at hand branches on. *)
Ltac branch :=
  repeat match goal with
         | |- context [if ?b then _ else _] => destruct b eqn:?
         end.

Section UserRuns.
Context {Sys : Type}.
Implicit Types (u : user.User Sys) (s : Sys) (log : list user.Call).

(** The pair of lookups always returns; it calls Lookup, and LookupID
    when a UID is configured. *)
Lemma lookups_run u s log :
  exists byName s1 byID s2 l,
    user.lookups u (s, log) = (user.Returned (byName, byID), (s2, log ++ l))
    /\ user.Lookup (user.system u) (user.Username u) s = (byName, s1)
    /\ (user.UID u = "" /\ byID = (None, None) /\ s2 = s1
        /\ l = [user.CallLookup (user.Username u)]
        \/ user.UID u <> "" /\ user.LookupID (user.system u) (user.UID u) s1 = (byID, s2)
           /\ l = [user.CallLookup (user.Username u); user.CallLookupID (user.UID u)]).
Proof.
  destruct (user.Lookup (user.system u) (user.Username u) s) as [byName s1] eqn:Hl.
  destruct (decide (user.UID u = "")) as [Huid | Huid].
  - exists byName, s1, (None, None), s1, [user.CallLookup (user.Username u)].
    split_and!; [by apply lookups_no_uid|done|]. left. done.
  - destruct (user.LookupID (user.system u) (user.UID u) s1) as [byID s2] eqn:Hi.
    exists byName, s1, byID, s2,
      [user.CallLookup (user.Username u); user.CallLookupID (user.UID u)].
    split_and!; [by apply (lookups_uid u s log byName s1)|done|]. right. done.
Qed.

(** Check only reads: whatever the task and the system, it returns or
    panics after at most three calls, none of which is AddUser or
    DelUser. *)
Theorem Check_only_looks_up u s log :
  exists l,
    snd (snd (user.Check u (s, log))) = log ++ l
    /\ calls.mutations l = []
    /\ length l <= 3.
Proof.
  destruct (lookups_run u s log)
    as ([userByName nameErr] & s1 & [userByID uidErr] & s2 & l & Hrun & _ & Hl).
  unfold user.Check, user.bind at 1. rewrite Hrun.
  assert (Hl' : calls.mutations l = [] /\ length l <= 2).
  { destruct Hl as [(_ & _ & _ & ->) | (_ & _ & ->)]; simpl; split; (done || lia). }
  destruct Hl' as (Hmut & Hlen). clear Hl Hrun.
  unfold user.withGroupChecked, user.differentUsers, user.bind, user.invoke,
    user.ret, user.panic.
  branch;
    repeat match goal with
           | |- context [user.LookupGroupID ?a ?b ?c] =>
               destruct (user.LookupGroupID a b c) as [[? [?|]] ?]
           | |- context [match ?x with Some _ => _ | None => _ end] => destruct x
           end;
    branch; simpl;
    first
      [ exists l; split_and!; [done|done|lia]
      | exists (l ++ [user.CallLookupGroupID (user.GID u)]);
        split_and!;
        [ by rewrite app_assoc
        | unfold calls.mutations in *; rewrite List.filter_app, Hmut; done
        | rewrite length_app; simpl; lia ] ].
Qed.

(** Apply never panics and changes the system at most once, after the
    lookups: it makes one call of AddUser, for the name and the options
    of the task, only when the state is "present", or one call of
    DelUser, for the name of the task, only when the state is "absent".
    When it makes such a call, the error it returns is the error that
    the call returned and the system is left as the call left it; when
    it makes none, it returns an error and the system is as the lookups
    left it.  So it returns no error only after such a call has
    returned none, and then with the zero warning level; with an error
    the level is StatusFatal. *)
Theorem Apply_changes_at_most_once u s log :
  let afterLookups := fst (snd (user.lookups u (s, log))) in
  exists status err s' l,
    user.Apply u (s, log) = (user.Returned (status, err), (s', log ++ l))
    /\ length (calls.mutations l) <= 1
    /\ (forall c, c ∈ calls.mutations l ->
          c = user.CallAddUser (user.Username u) (user.SetUserAddOptions u)
          /\ user.State u = "present"
          /\ user.AddUser (user.system u) (user.Username u) (user.SetUserAddOptions u)
               afterLookups = (err, s')
          \/ c = user.CallDelUser (user.Username u)
             /\ user.State u = "absent"
             /\ user.DelUser (user.system u) (user.Username u) afterLookups = (err, s'))
    /\ (calls.mutations l = [] -> err <> None /\ s' = afterLookups)
    /\ (err = None ->
          length (calls.mutations l) = 1
          /\ resource.WarningLevel status = resource.StatusNoChange)
    /\ (err <> None -> resource.WarningLevel status = resource.StatusFatal).
Proof.
  destruct (lookups_run u s log)
    as ([userByName nameErr] & s1 & [userByID uidErr] & s2 & l & Hrun & _ & Hl).
  cbv zeta. unfold user.Apply, user.bind at 1. rewrite Hrun. cbn [fst snd].
  assert (Hmut : calls.mutations l = []).
  { by destruct Hl as [(_ & _ & _ & ->) | (_ & _ & ->)]. }
  clear Hl Hrun.
  unfold user.addUser, user.delUser, user.bind, user.invoke, user.ret.
  cbn [fst snd].
  branch; cbn [fst snd];
    repeat match goal with
           | |- context [user.AddUser ?a ?b ?c ?d] =>
               destruct (user.AddUser a b c d) as [[?|] ?]
           | |- context [user.DelUser ?a ?b ?c] =>
               destruct (user.DelUser a b c) as [[?|] ?]
           end;
    cbn [fst snd];
    repeat match goal with
           | H : String.eqb _ _ = true |- _ => apply String.eqb_eq in H
           end;
    first
      [ eexists _, _, _, l; split_and!;
        [ reflexivity
        | rewrite Hmut; simpl; lia
        | rewrite Hmut; intros c Hc; by apply elem_of_nil in Hc
        | done
        | done
        | done ]
      | eexists _, _, _, (l ++ [_]); split_and!;
        [ by rewrite app_assoc
        | unfold calls.mutations in *; rewrite List.filter_app, Hmut; simpl; lia
        | unfold calls.mutations in *; rewrite List.filter_app, Hmut; simpl;
          intros c Hc; apply list_elem_of_singleton in Hc as ->; auto
        | unfold calls.mutations in *; rewrite List.filter_app, Hmut; done
        | unfold calls.mutations in *; rewrite List.filter_app, Hmut; done
        | done ] ].
Qed.

End UserRuns.

(** Turns the tests on strings among the hypotheses into equations. *)
Ltac string_tests :=
  unfold user.nonEmpty, user.StatePresent, user.StateAbsent in *;
  repeat match goal with
         | H : negb _ = true |- _ => apply negb_true_iff in H
         | H : negb _ = false |- _ => apply negb_false_iff in H
         | H : String.eqb _ _ = true |- _ => apply String.eqb_eq in H
         | H : String.eqb _ _ = false |- _ => apply String.eqb_neq in H
         end.

Section UserStatus.
Context {Sys : Type}.
Implicit Types (u : user.User Sys) (s : Sys) (log : list user.Call).

(** The status that Check returns is coherent: with an error the level
    is StatusFatal; the flag WillChange is set exactly when the level is
    StatusWillChange; at that level there is no error and exactly one
    difference, under "user", which starts from "absent" when the state
    is "present" and ends at "absent" when the state is "absent"; at any
    other level there is no difference; and at most one message is
    given. *)
Theorem Check_status_coherent u s log status err w :
  user.Check u (s, log) = (user.Returned (status, err), w) ->
  (err <> None -> resource.WarningLevel status = resource.StatusFatal)
  /\ (resource.WillChange status = true
      <-> resource.WarningLevel status = resource.StatusWillChange)
  /\ (resource.WarningLevel status = resource.StatusWillChange ->
      err = None
      /\ exists d, resource.Differences status = {[ "user" := d ]}
                   /\ (user.State u = "present" -> resource.Original d = "absent")
                   /\ (user.State u = "absent" -> resource.Current d = "absent"))
  /\ (resource.WarningLevel status <> resource.StatusWillChange ->
      resource.Differences status = ∅)
  /\ length (resource.Output status) <= 1.
Proof.
  destruct (lookups_run u s log)
    as ([userByName nameErr] & s1 & [userByID uidErr] & s2 & l & Hrun & _ & _).
  unfold user.Check, user.bind at 1. rewrite Hrun. clear Hrun.
  unfold user.withGroupChecked, user.differentUsers, user.bind, user.invoke,
    user.ret, user.panic.
  branch;
    repeat match goal with
           | |- context [user.LookupGroupID ?a ?b ?c] =>
               destruct (user.LookupGroupID a b c) as [[? [?|]] ?]
           | |- context [match ?x with Some _ => _ | None => _ end] => destruct x
           end;
    branch; simpl;
    intros Heq; try discriminate; injection Heq as <- <- <-;
    string_tests;
    unfold resource.setWillChange, resource.AddDifference, resource.appendOutput,
      resource.setWarningLevel, resource.zero; simpl;
    (split; [|split; [|split; [|split]]]); try done; try lia.
  all: intros _; split; [done|]; eexists; split; [apply insert_empty|].
  all: simpl; split; intros ?; congruence.
Qed.

(** Check panics, on a nil pointer, exactly when the state is "present"
    or "absent", a UID is configured, the lookup of the name reports
    neither ErrUnsupported nor an unknown user, the lookup of the uid
    does not report an unknown uid, and one of the two lookups has
    returned no user. *)
Theorem Check_panics_iff u s log userByName nameErr userByID uidErr w1 :
  user.lookups u (s, log)
  = (user.Returned ((userByName, nameErr), (userByID, uidErr)), w1) ->
  fst (user.Check u (s, log)) = user.Panicked
  <-> (user.State u = "present" \/ user.State u = "absent")
      /\ user.UID u <> ""
      /\ user.isErrUnsupported nameErr = false
      /\ user.isUnknownUserError nameErr = false
      /\ user.isUnknownUserIdError uidErr = false
      /\ (userByName = None \/ userByID = None).
Proof.
  intros Hrun. unfold user.Check, user.bind at 1. rewrite Hrun. clear Hrun.
  unfold user.withGroupChecked, user.differentUsers, user.bind, user.invoke,
    user.ret, user.panic.
  destruct (user.isErrUnsupported nameErr) eqn:Hunsupported,
           (user.isUnknownUserError nameErr) eqn:Hname,
           (user.isUnknownUserIdError uidErr) eqn:Huid,
           (String.eqb (user.State u) user.StatePresent) eqn:Hpresent,
           (String.eqb (user.State u) user.StateAbsent) eqn:Habsent,
           (String.eqb (user.UID u) "") eqn:Hnouid,
           userByName as [a|], userByID as [b|];
    simpl; branch;
    repeat match goal with
           | |- context [user.LookupGroupID ?a ?b ?c] =>
               destruct (user.LookupGroupID a b c) as [[? [?|]] ?]
           end;
    simpl; string_tests;
    (split; [try discriminate; intros _ | intros (Hstate & ? & ? & ? & ? & Hnil)];
     try done; try (destruct Hnil; done); try (destruct Hstate; congruence);
     split_and!; auto).
Qed.

(** SetUserAddOptions passes exactly the fields of the task that are
    set: an option is present exactly when it is "uid", "gid",
    "comment" or "directory" and the UID, GID, Name or HomeDir of the
    task is not empty, and its value is that field. *)
Theorem SetUserAddOptions_passes_set_fields u (key value : string) :
  user.SetUserAddOptions u !! key = Some value
  <-> value <> ""
      /\ (key = "uid" /\ value = user.UID u
          \/ key = "gid" /\ value = user.GID u
          \/ key = "comment" /\ value = user.Name u
          \/ key = "directory" /\ value = user.HomeDir u).
Proof.
  unfold user.SetUserAddOptions.
  destruct (user.nonEmpty (user.UID u)) eqn:H1, (user.nonEmpty (user.GID u)) eqn:H2,
           (user.nonEmpty (user.Name u)) eqn:H3, (user.nonEmpty (user.HomeDir u)) eqn:H4;
    string_tests;
    rewrite ?lookup_insert, ?lookup_empty;
    repeat case_decide; subst;
    (split;
     [ intros Hv; try discriminate; injection Hv as <-; (split; [done|]); tauto
     | intros (Hne & [(Hk & ->) | [(Hk & ->) | [(Hk & ->) | (Hk & ->)]]]);
       try done; try congruence ]).
Qed.

(** What Check announces, Apply does: when Check returns a status at
    the level StatusWillChange and the system answers the lookups of
    Apply as it answered those of Check, Apply makes exactly one call
    that changes the system, AddUser for the name and the options of
    the task when the state is "present", DelUser for its name when the
    state is "absent". *)
Theorem Check_WillChange_then_Apply_changes u s log s' log' status err w :
  user.Check u (s, log) = (user.Returned (status, err), w) ->
  resource.WarningLevel status = resource.StatusWillChange ->
  fst (user.lookups u (s', log')) = fst (user.lookups u (s, log)) ->
  exists c l,
    snd (snd (user.Apply u (s', log'))) = log' ++ l
    /\ calls.mutations l = [c]
    /\ (user.State u = "present" ->
        c = user.CallAddUser (user.Username u) (user.SetUserAddOptions u))
    /\ (user.State u = "absent" -> c = user.CallDelUser (user.Username u)).
Proof.
  destruct (lookups_run u s log)
    as ([userByName nameErr] & s1 & [userByID uidErr] & s2 & l & Hrun & _ & _).
  destruct (lookups_run u s' log')
    as ([userByName' nameErr'] & s1' & [userByID' uidErr'] & s2' & l' & Hrun' & _ & Hl').
  intros HCheck Hlevel Hsame.
  rewrite Hrun, Hrun' in Hsame. simpl in Hsame. injection Hsame as -> -> -> ->.
  assert (Hmut : calls.mutations l' = []).
  { by destruct Hl' as [(_ & _ & _ & ->) | (_ & _ & ->)]. }
  unfold user.Check, user.bind at 1 in HCheck. rewrite Hrun in HCheck.
  unfold user.Apply, user.bind at 1. rewrite Hrun'.
  clear Hrun Hrun' Hl'. revert HCheck Hlevel.
  unfold user.withGroupChecked, user.differentUsers, user.addUser, user.delUser,
    user.bind, user.invoke, user.ret, user.panic.
  destruct (user.isErrUnsupported nameErr) eqn:Hunsupported,
           (user.isUnknownUserError nameErr) eqn:Hname,
           (user.isUnknownUserIdError uidErr) eqn:Huid,
           (String.eqb (user.State u) user.StatePresent) eqn:Hpresent,
           (String.eqb (user.State u) user.StateAbsent) eqn:Habsent,
           (String.eqb (user.UID u) "") eqn:Hnouid,
           userByName as [a|], userByID as [b|];
    simpl; branch;
    repeat match goal with
           | |- context [user.LookupGroupID ?a ?b ?c] =>
               destruct (user.LookupGroupID a b c) as [[? [?|]] ?]
           | |- context [user.AddUser ?a ?b ?c ?d] =>
               destruct (user.AddUser a b c d) as [[?|] ?]
           | |- context [user.DelUser ?a ?b ?c] =>
               destruct (user.DelUser a b c) as [[?|] ?]
           end;
    simpl; intros HCheck; try discriminate; injection HCheck as <- <- <-;
    simpl; intros Hlevel; try discriminate;
    string_tests;
    (eexists _, (l' ++ [_]); split_and!;
     [ by rewrite app_assoc
     | unfold calls.mutations in *; rewrite List.filter_app, Hmut; reflexivity
     | intros ?; congruence
     | intros ?; congruence ]).
Qed.

End UserStatus.

Lemma Check_status_coherent_witness :
  exists status w,
    user.Check (passwd.task "" "" "present") (passwd.empty, [])
    = (user.Returned (status, None), w)
    /\ resource.WillChange status = true
    /\ exists d, resource.Differences status = {[ "user" := d ]}
                 /\ resource.Original d = "absent".
Proof.
  eexists _, _. split; [reflexivity|].
  match goal with
  | |- context [resource.WillChange ?st] =>
      destruct (Check_status_coherent (passwd.task "" "" "present") passwd.empty []
                  st None _ eq_refl) as (_ & Hflag & Hdiff & _)
  end.
  split; [by apply Hflag|].
  destruct (Hdiff eq_refl) as (_ & d & Hd & Ho & _).
  exists d. split; [exact Hd|by apply Ho].
Defined.

Lemma Check_panics_iff_witness :
  fst (user.Check (user.Build_User unit "1001" "" "alice" "" "" "present" calls.unreadable)
         (tt, []))
  = user.Panicked.
Proof.
  apply (Check_panics_iff
           (user.Build_User unit "1001" "" "alice" "" "" "present" calls.unreadable) tt []
           None (Some (Errorf "open /etc/passwd: permission denied"))
           None (Some (Errorf "open /etc/passwd: permission denied"))
           (tt, [user.CallLookup "alice"; user.CallLookupID "1001"]) eq_refl).
  split_and!; [by left|done|done|done|done|by left].
Defined.

Lemma Check_WillChange_then_Apply_changes_witness :
  let u := passwd.task "" "" "present" in
  exists c l,
    snd (snd (user.Apply u (passwd.empty, []))) = [] ++ l
    /\ calls.mutations l = [c]
    /\ (user.State u = "present" ->
        c = user.CallAddUser (user.Username u) (user.SetUserAddOptions u))
    /\ (user.State u = "absent" -> c = user.CallDelUser (user.Username u)).
Proof.
  intros u.
  eapply (Check_WillChange_then_Apply_changes u passwd.empty [] passwd.empty []);
    [reflexivity|reflexivity|reflexivity].
Defined.

(** ** The fields of a planning result *)

Section ResultFields.
Context {task status diff : Type}.
Variable Diffs : status -> gmap string diff.
Variable Changes : diff -> bool.
Variable Original : diff -> string.
Variable Current : diff -> string.

(** What the loop of Fields has stored after ranging over [m]. *)
Lemma Fields_loop (m : gmap string diff) (key : string) (o c : string) :
  map_fold
    (fun key d (diffOutput : gmap string (string * string)) =>
       if Changes d then <[key := (Original d, Current d)]> diffOutput else diffOutput)
    ∅ m !! key = Some (o, c)
  <-> exists d, m !! key = Some d /\ Changes d = true
                /\ o = Original d /\ c = Current d.
Proof.
  revert key o c. apply (map_fold_weak_ind (fun out m => forall key o c,
    out !! key = Some (o, c)
    <-> exists d, m !! key = Some d /\ Changes d = true
                  /\ o = Original d /\ c = Current d)).
  - intros key o c. rewrite lookup_empty. split; [done|].
    intros (d & Hd & _). by rewrite lookup_empty in Hd.
  - intros i x m' r Hi IH key o c.
    destruct (decide (key = i)) as [-> | Hne].
    + rewrite lookup_insert_eq. destruct (Changes x) eqn:Hx.
      * rewrite lookup_insert_eq. split.
        -- intros Heq. injection Heq as <- <-. by exists x.
        -- intros (d & Hd & _ & -> & ->). by injection Hd as <-.
      * rewrite IH, Hi. split; [by intros (d & Hd & _)|].
        intros (d & Hd & Hch & _). injection Hd as <-. congruence.
    + rewrite (lookup_insert_ne m') by done. rewrite <- IH.
      destruct (Changes x); [by rewrite lookup_insert_ne|done].
Qed.

(** Fields reports exactly the differences of the status that change,
    each under its own key as the pair of its original and its current
    text: a key is present in the result exactly when the status has a
    difference under it whose Changes() is true, and differences that do
    not change are left out. *)
Theorem Fields_changed_differences (r : plan.Result (task := task)) (st : status) :
  plan.Status r = Some st ->
  exists out,
    plan.Fields Diffs Changes Original Current r = Some out
    /\ (forall key o c,
          out !! key = Some (o, c)
          <-> exists d, Diffs st !! key = Some d /\ Changes d = true
                        /\ o = Original d /\ c = Current d)
    /\ (forall key d, Diffs st !! key = Some d -> Changes d = false -> out !! key = None).
Proof.
  intros Hst. unfold plan.Fields. rewrite Hst. eexists. split; [reflexivity|].
  split; [intros key o c; apply Fields_loop|].
  intros key d Hd Hch.
  match goal with |- ?out !! key = None => destruct (out !! key) as [[o c]|] eqn:Hout end;
    [|done].
  apply Fields_loop in Hout as (d' & Hd' & Hch' & _). congruence.
Qed.

End ResultFields.

Lemma Fields_changed_differences_witness :
  let st :=
    resource.AddDifference "mode" "0644" "0644" ""
      (resource.AddDifference "user" "absent" "user alice" "" resource.zero) in
  let r : plan.Result (task := unit) :=
    {| plan.Task := None; plan.Status := Some st; plan.Err := None |} in
  exists out,
    plan.Fields resource.Diffs resource.Changes resource.Original resource.Current r
    = Some out
    /\ out !! "user" = Some ("absent", "user alice")
    /\ out !! "mode" = None.
Proof.
  intros st r.
  destruct (Fields_changed_differences resource.Diffs resource.Changes
              resource.Original resource.Current r st eq_refl)
    as (out & Hout & Hin & Hnot).
  exists out. split_and!; [exact Hout| |].
  - apply Hin. eexists. split_and!; reflexivity.
  - apply (Hnot "mode" {| resource.Original := "0644"; resource.Current := "0644" |});
      reflexivity.
Defined.
